(** * IframeViewer: capture-crop pipeline and zoom/pan engine

    A shallow embedding of the popup script of the IframeViewer browser
    extension (src/background.js, the part after the service worker):
    [scrollAndGetRect], [cropImage], [handleCapture], [zoomFit],
    [zoomAtPoint], [zoomBy] and the handlers of [initZoomInteraction].

    Numbers.  A JavaScript number is modelled as an exact rational ([Q]):
    the finite doubles without rounding error.  NaN and the infinities are
    not represented, so a division is only meaningful where its divisor is
    not zero; every statement below that reads the result of a division
    says so.  DOM attributes that WebIDL types as [unsigned long] (image
    widths and heights) are [N], those typed [long] are [Z].

    Asynchrony.  [handleCapture] is an [async] function.  It is modelled as
    a task that is resumed by events: one event per promise it awaits.  The
    popup is single-threaded, so the code between two [await]s runs as one
    atomic step of the transition function [step]. *)

From Stdlib Require Import ZArith NArith QArith Qround Qminmax Lia Lqa Ascii String.
From stdpp Require Import base list.

Local Open Scope Z_scope.

(** ** JavaScript primitives *)

Module JS.

(** [Math.round]: the nearest integer, a tie going towards +infinity. *)
Definition round (v : Q) : Z := Qfloor (v + (1 # 2))%Q.

(** [v || 1] on a number: 0 is the only falsy rational. *)
Definition orOne (v : Q) : Q := if Qeq_bool v 0 then 1%Q else v.

(** [Math.min(a, b, c)]. *)
Definition min3 (a b c : Q) : Q := Qmin (Qmin a b) c.

(** Truthiness of an optional string: [undefined] and [''] are falsy. *)
Definition truthy (s : option string) : bool :=
  match s with
  | Some v => negb (String.eqb v EmptyString)
  | None => false
  end.

(** A settled promise. *)
Inductive Settled (A : Type) : Type :=
| Fulfilled (v : A)
| Rejected (msg : string).

Arguments Fulfilled {A} v.
Arguments Rejected {A} msg.

End JS.

(** ** Raster images and the canvas *)

Module Raster.

(** One RGBA pixel, packed. *)
Definition Pixel : Type := N.

(** The colour of a cleared canvas: transparent black. *)
Definition transparent : Pixel := 0%N.

(** A decoded bitmap: [pixel im i j] is the pixel in column [i], row [j],
    the origin at the top left.  Only 0 <= i < width, 0 <= j < height is
    part of the image. *)
Record Image : Type := {
  width : N;
  height : N;
  pixel : Z -> Z -> Pixel
}.

(** A [data:] URL.  PNG is lossless, so a URL that decodes is identified
    with the bitmap it encodes; [Undecodable] is a payload on which
    [img.onerror] fires. *)
Inductive DataUrl : Type :=
| Png (im : Image)
| Undecodable.

Definition inside (im : Image) (i j : Z) : bool :=
  (0 <=? i) && (i <? Z.of_N (width im)) && (0 <=? j) && (j <? Z.of_N (height im)).

(** A fresh canvas of size [cw] x [ch] after
    [ctx.drawImage(img, sx, sy, sw, sh, 0, 0, sw, sh)]: source and
    destination have the same size, so pixels are copied one to one; the
    part of the source rectangle outside the image is clipped and leaves
    the canvas transparent. *)
Definition drawImage (im : Image) (sx sy sw sh : Z) (cw ch : N) : Image :=
  {| width := cw;
     height := ch;
     pixel := fun i j =>
       if (0 <=? i) && (i <? sw) && (0 <=? j) && (j <? sh)
          && inside im (sx + i) (sy + j)
       then pixel im (sx + i) (sy + j)
       else transparent |}.

End Raster.

(** ** Rectangles *)

(** The object [scrollAndGetRect] resolves with: the visible part of the
    iframe in CSS pixels, its full size and the device pixel ratio. *)
Module Rect.

Record ViewportRect : Type := {
  x : Q;
  y : Q;
  width : Q;
  height : Q;
  fullWidth : Q;
  fullHeight : Q;
  devicePixelRatio : Q
}.

End Rect.

(** A [DOMRect] as [getBoundingClientRect] returns it. *)
Module DOMRect.

Record t : Type := {
  x : Q;
  y : Q;
  width : Q;
  height : Q
}.

Definition left (r : t) : Q := Qmin (x r) (x r + width r).
Definition right (r : t) : Q := Qmax (x r) (x r + width r).
Definition top (r : t) : Q := Qmin (y r) (y r + height r).
Definition bottom (r : t) : Q := Qmax (y r) (y r + height r).

End DOMRect.

(** ** scrollAndGetRect *)

Module Geometry.

(** The host page when the 200 ms timer of [scrollAndGetRect] fires:
    [iframes] holds, for each iframe of [document.querySelectorAll], the
    bounding box it has after [scrollIntoView] and the settle delay. *)
Record Page : Type := {
  iframes : list DOMRect.t;
  innerWidth : Q;
  innerHeight : Q;
  devicePixelRatio : Q
}.

(** The body of the timer callback. *)
Definition visibleRect (rect : DOMRect.t) (page : Page) : Rect.ViewportRect :=
  let x := Qmax (DOMRect.left rect) 0 in
  let y := Qmax (DOMRect.top rect) 0 in
  let r := Qmin (DOMRect.right rect) (innerWidth page) in
  let b := Qmin (DOMRect.bottom rect) (innerHeight page) in
  {| Rect.x := x;
     Rect.y := y;
     Rect.width := inject_Z (JS.round (r - x));
     Rect.height := inject_Z (JS.round (b - y));
     Rect.fullWidth := inject_Z (JS.round (DOMRect.width rect));
     Rect.fullHeight := inject_Z (JS.round (DOMRect.height rect));
     Rect.devicePixelRatio := JS.orOne (devicePixelRatio page) |}.

(** [iframes[index]]: [undefined] outside the list. *)
Definition item (page : Page) (index : Z) : option DOMRect.t :=
  if index <? 0 then None else iframes page !! Z.to_nat index.

(** The value the promise resolves with; [None] is [null]. *)
Definition scrollAndGetRect (page : Page) (index : Z) : option Rect.ViewportRect :=
  match item page index with
  | None => None
  | Some rect => Some (visibleRect rect page)
  end.

End Geometry.

(** ** cropImage *)

Module Cropper.

(** The two rejections of [cropImage]. *)
Inductive CropError : Type :=
| OutOfBounds   (* '裁剪区域超出截图范围' *)
| DecodeError.  (* '截图图像加载失败' *)

Definition dpr (rect : Rect.ViewportRect) : Q := JS.orOne (Rect.devicePixelRatio rect).
Definition sx (rect : Rect.ViewportRect) : Z := JS.round (Rect.x rect * dpr rect).
Definition sy (rect : Rect.ViewportRect) : Z := JS.round (Rect.y rect * dpr rect).
Definition sw (rect : Rect.ViewportRect) : Z := JS.round (Rect.width rect * dpr rect).
Definition sh (rect : Rect.ViewportRect) : Z := JS.round (Rect.height rect * dpr rect).

Definition clampedSw (img : Raster.Image) (rect : Rect.ViewportRect) : Z :=
  Z.min (sw rect) (Z.of_N (Raster.width img) - sx rect).
Definition clampedSh (img : Raster.Image) (rect : Rect.ViewportRect) : Z :=
  Z.min (sh rect) (Z.of_N (Raster.height img) - sy rect).

(** [img.onload] of [cropImage]. *)
Definition crop (img : Raster.Image) (rect : Rect.ViewportRect)
  : CropError + Raster.DataUrl :=
  let cw := clampedSw img rect in
  let ch := clampedSh img rect in
  if (cw <=? 0) || (ch <=? 0) then inl OutOfBounds
  else inr (Raster.Png (Raster.drawImage img (sx rect) (sy rect) cw ch
                          (Z.to_N cw) (Z.to_N ch))).

(** What the promise of [cropImage(dataUrl, rect)] settles with. *)
Definition cropImage (dataUrl : Raster.DataUrl) (rect : Rect.ViewportRect)
  : CropError + Raster.DataUrl :=
  match dataUrl with
  | Raster.Undecodable => inl DecodeError
  | Raster.Png img => crop img rect
  end.

End Cropper.

(** ** The zoom engine *)

Module Zoom.

Local Open Scope Q_scope.

(** The global [zoom] object (coordinates for [transform-origin: 0 0]). *)
Record State : Type := {
  scale : Q;
  tx : Q;
  ty : Q;
  fitScale : Q
}.

(** [const zoom = { scale: 1, tx: 0, ty: 0, fitScale: 1 }] *)
Definition initial : State :=
  {| scale := 1; tx := 0; ty := 0; fitScale := 1 |}.

(** What the engine reads of [$('zoom-viewport')]. *)
Record Viewport : Type := {
  clientWidth : Z;
  clientHeight : Z
}.

(** What the engine reads of [$('snapshot-img')]. *)
Record Img : Type := {
  naturalWidth : N;
  naturalHeight : N
}.

Definition ofN (n : N) : Q := inject_Z (Z.of_N n).

(** [applyTransform] writes [zoom] to the style of the image and this
    percentage to the label; it reads [zoom] and changes none of it. *)
Definition zoomLabel (zoom : State) : Z := JS.round (scale zoom * 100).

Definition zoomFit (vp : Viewport) (img : Img) (zoom : State) : State :=
  if (naturalWidth img =? 0)%N then zoom
  else
    let scaleX := inject_Z (clientWidth vp) / ofN (naturalWidth img) in
    let scaleY := inject_Z (clientHeight vp) / ofN (naturalHeight img) in
    let fit := JS.min3 scaleX scaleY 1 in
    {| fitScale := fit;
       scale := fit;
       tx := (inject_Z (clientWidth vp) - ofN (naturalWidth img) * fit) / 2;
       ty := (inject_Z (clientHeight vp) - ofN (naturalHeight img) * fit) / 2 |}.

Definition MIN : Q := 5 # 100.
Definition MAX : Q := 10.

Definition zoomAtPoint (newScale vpX vpY : Q) (zoom : State) : State :=
  let newScale := Qmax MIN (Qmin MAX newScale) in
  let imgX := (vpX - tx zoom) / scale zoom in
  let imgY := (vpY - ty zoom) / scale zoom in
  {| tx := vpX - imgX * newScale;
     ty := vpY - imgY * newScale;
     scale := newScale;
     fitScale := fitScale zoom |}.

Definition zoomBy (vp : Viewport) (factor : Q) (zoom : State) : State :=
  let centerX := inject_Z (clientWidth vp) / 2 in
  let centerY := inject_Z (clientHeight vp) / 2 in
  zoomAtPoint (scale zoom * factor) centerX centerY zoom.

(** *** initZoomInteraction *)

(** The closure variable [drag]. *)
Record Drag : Type := {
  startX : Q;
  startY : Q;
  tx0 : Q;
  ty0 : Q
}.

(** The state the handlers share: [zoom] and [drag] ([None] is [null]). *)
Record Interaction : Type := {
  zoom : State;
  drag : option Drag
}.

(** The fields of a mouse or wheel event the handlers read. *)
Record MouseEvent : Type := {
  button : Z;
  clientX : Q;
  clientY : Q;
  deltaY : Q
}.

(** The 'wheel' listener; [left] and [top] are those of
    [vp.getBoundingClientRect()]. *)
Definition onWheel (left top : Q) (e : MouseEvent) (st : Interaction) : Interaction :=
  let factor := if Qlt_le_dec (deltaY e) 0 then 112 # 100 else 1 / (112 # 100) in
  {| zoom := zoomAtPoint (scale (zoom st) * factor)
               (clientX e - left) (clientY e - top) (zoom st);
     drag := drag st |}.

(** The 'mousedown' listener. *)
Definition onMouseDown (e : MouseEvent) (st : Interaction) : Interaction :=
  if negb (button e =? 0)%Z then st
  else
    {| zoom := zoom st;
       drag := Some {| startX := clientX e; startY := clientY e;
                       tx0 := tx (zoom st); ty0 := ty (zoom st) |} |}.

(** The 'mousemove' listener. *)
Definition onMouseMove (e : MouseEvent) (st : Interaction) : Interaction :=
  match drag st with
  | None => st
  | Some d =>
      {| zoom := {| tx := tx0 d + (clientX e - startX d);
                    ty := ty0 d + (clientY e - startY d);
                    scale := scale (zoom st);
                    fitScale := fitScale (zoom st) |};
         drag := drag st |}
  end.

(** The 'mouseup' listener. *)
Definition onMouseUp (st : Interaction) : Interaction :=
  {| zoom := zoom st; drag := None |}.

(** The 'dblclick' listener is [zoomFit]. *)
Definition onDblClick (vp : Viewport) (img : Img) (st : Interaction) : Interaction :=
  {| zoom := zoomFit vp img (zoom st); drag := drag st |}.

(** One drag gesture: the button goes down at [down], the pointer then
    visits [moves] in order. *)
Definition dragBy (down : MouseEvent) (moves : list MouseEvent) (st : Interaction)
  : Interaction :=
  fold_left (fun acc e => onMouseMove e acc) moves (onMouseDown down st).

End Zoom.

(** ** handleCapture *)

Module Capture.

Import JS.

(** The errors [handleCapture] catches.  Only their message is read. *)
Inductive Failure : Type :=
| NotFound                        (* no rect came back from the page *)
| ZeroSize                        (* rect.width <= 0 || rect.height <= 0 *)
| CaptureError (msg : string)     (* result.error *)
| NoImageData                     (* no result.dataUrl *)
| CropFailed (e : Cropper.CropError)
| Thrown (msg : string).          (* an awaited chrome call rejected *)

Definition message (err : Failure) : string :=
  match err with
  | NotFound => "无法定位 iframe 元素"
  | ZeroSize => "iframe 尺寸为零，无法截图"
  | CaptureError msg => msg
  | NoImageData => "截图失败：未返回图像数据"
  | CropFailed Cropper.OutOfBounds => "裁剪区域超出截图范围"
  | CropFailed Cropper.DecodeError => "截图图像加载失败"
  | Thrown msg => msg
  end.

(** The text of [$('snapshot-size-hint')]. *)
Inductive Hint : Type :=
| HintUsage                       (* '滚轮缩放 · 拖拽平移 · 双击还原' *)
| HintSize (w h : N)              (* `原始尺寸 ${w} × ${h} px · ...` *)
| HintFailed (msg : string).      (* `截图失败：${err.message}` *)

(** The part of the snapshot panel the capture code writes: a [...Hidden]
    field says that the element carries the class [hidden]; [btnFull]
    and [btnSm] are the classes of [$('btn-capture')]. *)
Record Panel : Type := {
  snapIdleHidden : bool;
  snapLoadingHidden : bool;
  zoomViewportHidden : bool;
  zoomControlsHidden : bool;
  btnDisabled : bool;
  btnFull : bool;
  btnSm : bool;
  sizeHint : Hint
}.

(** [$('snapshot-img')]: [onload] names the invocation whose [resolve] is
    installed as the handler, [pending] says that [src] was assigned and
    its load event has not fired yet, [bitmap] is the image the element
    shows (its natural size is that of [bitmap]). *)
Record ImgElement : Type := {
  src : option Raster.DataUrl;
  onload : option nat;
  pending : bool;
  bitmap : option Raster.Image
}.

(** The answer of the service worker to CAPTURE_TAB. *)
Record Reply : Type := {
  error : option string;
  dataUrl : option Raster.DataUrl
}.

(** Where an invocation of [handleCapture] is suspended. *)
Inductive Task : Type :=
| AwaitScript (captureIndex : Z)
| AwaitCaptureTab (rect : Rect.ViewportRect)
| AwaitCrop (dataUrl : Raster.DataUrl) (rect : Rect.ViewportRect)
| AwaitImgLoad (croppedUrl : Raster.DataUrl)
| Returned.

(** The collaborators an invocation calls. *)
Inductive Call : Type :=
| ExecuteScript (tabId : option Z) (index : Z)    (* func: scrollAndGetRect *)
| SendCaptureTab (tabId windowId : option Z)      (* type: 'CAPTURE_TAB' *)
| CropImage.

(** The popup: its globals, the snapshot panel, the invocations of
    [handleCapture] (an invocation is named by its position in [tasks])
    and the calls made so far, each with the invocation that made it. *)
Record App : Type := {
  iframeList : list string;
  currentTabId : option Z;
  currentWindowId : option Z;
  activeModalIndex : Z;
  lastSnapshotUrl : option Raster.DataUrl;
  modalHidden : bool;
  panel : Panel;
  img : ImgElement;
  viewport : Zoom.Viewport;
  zoom : Zoom.State;
  tasks : list Task;
  calls : list (nat * Call)
}.

Definition set_activeModalIndex (v : Z) (s : App) : App :=
  {| iframeList := iframeList s; currentTabId := currentTabId s;
     currentWindowId := currentWindowId s; activeModalIndex := v;
     lastSnapshotUrl := lastSnapshotUrl s; modalHidden := modalHidden s;
     panel := panel s; img := img s; viewport := viewport s; zoom := zoom s;
     tasks := tasks s; calls := calls s |}.

Definition set_lastSnapshotUrl (v : option Raster.DataUrl) (s : App) : App :=
  {| iframeList := iframeList s; currentTabId := currentTabId s;
     currentWindowId := currentWindowId s; activeModalIndex := activeModalIndex s;
     lastSnapshotUrl := v; modalHidden := modalHidden s;
     panel := panel s; img := img s; viewport := viewport s; zoom := zoom s;
     tasks := tasks s; calls := calls s |}.

Definition set_modalHidden (v : bool) (s : App) : App :=
  {| iframeList := iframeList s; currentTabId := currentTabId s;
     currentWindowId := currentWindowId s; activeModalIndex := activeModalIndex s;
     lastSnapshotUrl := lastSnapshotUrl s; modalHidden := v;
     panel := panel s; img := img s; viewport := viewport s; zoom := zoom s;
     tasks := tasks s; calls := calls s |}.

Definition set_panel (v : Panel) (s : App) : App :=
  {| iframeList := iframeList s; currentTabId := currentTabId s;
     currentWindowId := currentWindowId s; activeModalIndex := activeModalIndex s;
     lastSnapshotUrl := lastSnapshotUrl s; modalHidden := modalHidden s;
     panel := v; img := img s; viewport := viewport s; zoom := zoom s;
     tasks := tasks s; calls := calls s |}.

Definition set_img (v : ImgElement) (s : App) : App :=
  {| iframeList := iframeList s; currentTabId := currentTabId s;
     currentWindowId := currentWindowId s; activeModalIndex := activeModalIndex s;
     lastSnapshotUrl := lastSnapshotUrl s; modalHidden := modalHidden s;
     panel := panel s; img := v; viewport := viewport s; zoom := zoom s;
     tasks := tasks s; calls := calls s |}.

Definition set_zoom (v : Zoom.State) (s : App) : App :=
  {| iframeList := iframeList s; currentTabId := currentTabId s;
     currentWindowId := currentWindowId s; activeModalIndex := activeModalIndex s;
     lastSnapshotUrl := lastSnapshotUrl s; modalHidden := modalHidden s;
     panel := panel s; img := img s; viewport := viewport s; zoom := v;
     tasks := tasks s; calls := calls s |}.

Definition set_tasks (v : list Task) (s : App) : App :=
  {| iframeList := iframeList s; currentTabId := currentTabId s;
     currentWindowId := currentWindowId s; activeModalIndex := activeModalIndex s;
     lastSnapshotUrl := lastSnapshotUrl s; modalHidden := modalHidden s;
     panel := panel s; img := img s; viewport := viewport s; zoom := zoom s;
     tasks := v; calls := calls s |}.

Definition set_calls (v : list (nat * Call)) (s : App) : App :=
  {| iframeList := iframeList s; currentTabId := currentTabId s;
     currentWindowId := currentWindowId s; activeModalIndex := activeModalIndex s;
     lastSnapshotUrl := lastSnapshotUrl s; modalHidden := modalHidden s;
     panel := panel s; img := img s; viewport := viewport s; zoom := zoom s;
     tasks := tasks s; calls := v |}.

(** Invocation [tid] calls collaborator [c]. *)
Definition call (tid : nat) (c : Call) (s : App) : App :=
  set_calls (calls s ++ [(tid, c)]) s.

(** Invocation [tid] suspends at, or ends in, [t]. *)
Definition suspend (tid : nat) (t : Task) (s : App) : App :=
  set_tasks (<[tid := t]> (tasks s)) s.

(** The calls invocation [tid] has made, oldest first. *)
Definition callsOf (tid : nat) (s : App) : list Call :=
  map snd (List.filter (fun c => Nat.eqb (fst c) tid) (calls s)).

(** *** The panel *)

(** [resetSnapshotPanel], its writes to the panel. *)
Definition panelReset (p : Panel) : Panel :=
  {| snapIdleHidden := false; snapLoadingHidden := true;
     zoomViewportHidden := true; zoomControlsHidden := true;
     btnDisabled := btnDisabled p; btnFull := true; btnSm := false;
     sizeHint := HintUsage |}.

(** [handleCapture] before [try]: the loading state. *)
Definition panelLoading (p : Panel) : Panel :=
  {| snapIdleHidden := true; snapLoadingHidden := false;
     zoomViewportHidden := true; zoomControlsHidden := true;
     btnDisabled := true; btnFull := btnFull p; btnSm := btnSm p;
     sizeHint := HintUsage |}.

(** The end of the [try] block, before [zoomFit()]. *)
Definition panelReady (w h : N) (p : Panel) : Panel :=
  {| snapIdleHidden := snapIdleHidden p; snapLoadingHidden := snapLoadingHidden p;
     zoomViewportHidden := false; zoomControlsHidden := false;
     btnDisabled := btnDisabled p; btnFull := false; btnSm := true;
     sizeHint := HintSize w h |}.

(** The [catch] block. *)
Definition panelFailed (err : Failure) (p : Panel) : Panel :=
  {| snapIdleHidden := false; snapLoadingHidden := snapLoadingHidden p;
     zoomViewportHidden := zoomViewportHidden p; zoomControlsHidden := true;
     btnDisabled := btnDisabled p; btnFull := true; btnSm := false;
     sizeHint := HintFailed (message err) |}.

(** The [finally] block. *)
Definition panelFinally (p : Panel) : Panel :=
  {| snapIdleHidden := snapIdleHidden p; snapLoadingHidden := true;
     zoomViewportHidden := zoomViewportHidden p;
     zoomControlsHidden := zoomControlsHidden p;
     btnDisabled := false; btnFull := btnFull p; btnSm := btnSm p;
     sizeHint := sizeHint p |}.

(** [img.naturalWidth] and [img.naturalHeight]: 0 while nothing is shown. *)
Definition natural (el : ImgElement) : Zoom.Img :=
  match bitmap el with
  | Some im => {| Zoom.naturalWidth := Raster.width im;
                  Zoom.naturalHeight := Raster.height im |}
  | None => {| Zoom.naturalWidth := 0; Zoom.naturalHeight := 0 |}
  end.

(** *** The steps of one invocation *)

(** [throw err] inside [try]: [catch], then [finally], then the
    invocation returns. *)
Definition throw (tid : nat) (err : Failure) (s : App) : App :=
  suspend tid Returned (set_panel (panelFinally (panelFailed err (panel s))) s).

(** [!currentTabId]: [null] and 0 are falsy. *)
Definition noTab (s : App) : bool :=
  match currentTabId s with
  | Some id => id =? 0
  | None => true
  end.

(** A call of [handleCapture()], up to its first [await]. *)
Definition handleCapture (s : App) : App :=
  if (activeModalIndex s <? 0) || noTab s then s
  else
    let tid := length (tasks s) in
    let captureIndex := activeModalIndex s in
    call tid (ExecuteScript (currentTabId s) captureIndex)
      (set_tasks (tasks s ++ [AwaitScript captureIndex])
         (set_panel (panelLoading (panel s)) s)).

(** [executeScript] settled: steps 1 and 2 of the [try] block. *)
Definition afterScript (tid : nat) (r : Settled (option Rect.ViewportRect)) (s : App)
  : App :=
  match r with
  | Rejected msg => throw tid (Thrown msg) s
  | Fulfilled None => throw tid NotFound s
  | Fulfilled (Some rect) =>
      if Qle_bool (Rect.width rect) 0 || Qle_bool (Rect.height rect) 0
      then throw tid ZeroSize s
      else call tid (SendCaptureTab (currentTabId s) (currentWindowId s))
             (suspend tid (AwaitCaptureTab rect) s)
  end.

(** [sendMessage] settled: the checks of the reply and the call of
    [cropImage]. *)
Definition afterCaptureTab (tid : nat) (rect : Rect.ViewportRect)
  (r : Settled (option Reply)) (s : App) : App :=
  match r with
  | Rejected msg => throw tid (Thrown msg) s
  | Fulfilled result =>
      if truthy (result ≫= error)
      then throw tid (CaptureError (default EmptyString (result ≫= error))) s
      else
        match result ≫= dataUrl with
        | None => throw tid NoImageData s
        | Some d => call tid CropImage (suspend tid (AwaitCrop d rect) s)
        end
  end.

(** [cropImage] settled: step 4 up to the [await] of the load event. *)
Definition afterCrop (tid : nat) (d : Raster.DataUrl) (rect : Rect.ViewportRect)
  (s : App) : App :=
  match Cropper.cropImage d rect with
  | inl e => throw tid (CropFailed e) s
  | inr croppedUrl =>
      suspend tid (AwaitImgLoad croppedUrl)
        (set_img {| src := Some croppedUrl; onload := Some tid;
                    pending := true; bitmap := bitmap (img s) |}
           (set_lastSnapshotUrl (Some croppedUrl) s))
  end.

(** The rest of the [try] block, then [finally]. *)
Definition afterImgLoad (tid : nat) (s : App) : App :=
  let shown := natural (img s) in
  let p := panelReady (Zoom.naturalWidth shown) (Zoom.naturalHeight shown) (panel s) in
  suspend tid Returned
    (set_panel (panelFinally p)
       (set_zoom (Zoom.zoomFit (viewport s) shown (zoom s)) s)).

(** *** The popup as a transition system *)

Inductive Event : Type :=
| OpenModal (index : Z)
| CloseModal
| HandleCapture
| ScriptSettled (tid : nat) (r : Settled (option Rect.ViewportRect))
| CaptureTabSettled (tid : nat) (r : Settled (option Reply))
| CropSettled (tid : nat)
| ImgLoad.

(** [iframeList[index]] is defined. *)
Definition hasIframe (s : App) (index : Z) : bool :=
  (0 <=? index) && (index <? Z.of_nat (length (iframeList s))).

(** [openModal(index)], what it does to the state above. *)
Definition openModal (index : Z) (s : App) : App :=
  if hasIframe s index then
    set_modalHidden false
      (set_lastSnapshotUrl None
         (set_panel (panelReset (panel s))
            (set_activeModalIndex index s)))
  else s.

Definition closeModal (s : App) : App :=
  set_activeModalIndex (-1) (set_modalHidden true s).

(** The load event of [$('snapshot-img')]: the element shows the image of
    [src] and calls its [onload] handler, which resumes the invocation
    that installed it if that one is still waiting. *)
Definition imgLoad (s : App) : App :=
  match src (img s), pending (img s) with
  | Some (Raster.Png im), true =>
      let s1 := set_img {| src := src (img s); onload := onload (img s);
                           pending := false; bitmap := Some im |} s in
      match onload (img s) with
      | Some tid =>
          match tasks s !! tid with
          | Some (AwaitImgLoad _) => afterImgLoad tid s1
          | _ => s1
          end
      | None => s1
      end
  | _, _ => s
  end.

(** An event that settles a promise no invocation is waiting for changes
    nothing. *)
Definition step (s : App) (e : Event) : App :=
  match e with
  | OpenModal index => openModal index s
  | CloseModal => closeModal s
  | HandleCapture => handleCapture s
  | ScriptSettled tid r =>
      match tasks s !! tid with
      | Some (AwaitScript _) => afterScript tid r s
      | _ => s
      end
  | CaptureTabSettled tid r =>
      match tasks s !! tid with
      | Some (AwaitCaptureTab rect) => afterCaptureTab tid rect r s
      | _ => s
      end
  | CropSettled tid =>
      match tasks s !! tid with
      | Some (AwaitCrop d rect) => afterCrop tid d rect s
      | _ => s
      end
  | ImgLoad => imgLoad s
  end.

Definition run (s : App) (events : list Event) : App :=
  fold_left step events s.

(** The popup after [init]: no modal open, nothing captured yet, the
    panel as [resetSnapshotPanel] leaves it. *)
Definition initial (list : list string) (tabId windowId : option Z)
  (vp : Zoom.Viewport) : App :=
  {| iframeList := list; currentTabId := tabId; currentWindowId := windowId;
     activeModalIndex := -1; lastSnapshotUrl := None; modalHidden := true;
     panel := {| snapIdleHidden := false; snapLoadingHidden := true;
                 zoomViewportHidden := true; zoomControlsHidden := true;
                 btnDisabled := false; btnFull := true; btnSm := false;
                 sizeHint := HintUsage |};
     img := {| src := None; onload := None; pending := false; bitmap := None |};
     viewport := vp; zoom := Zoom.initial;
     tasks := []; calls := [] |}.

(** *** What a step does to the invocations *)

(** A step changes [tasks] and [calls] in one of three ways: not at all,
    by starting an invocation, or by resuming one that has not returned;
    a resumed invocation appends its calls [cs] to the log and never goes
    back to waiting for [executeScript]. *)
Inductive Effect (s s' : App) : Prop :=
| Silent :
    tasks s' = tasks s -> calls s' = calls s -> Effect s s'
| Started (tab : option Z) (index : Z) :
    tasks s' = tasks s ++ [AwaitScript index] ->
    calls s' = calls s ++ [(length (tasks s), ExecuteScript tab index)] ->
    Effect s s'
| Resumed (tid : nat) (t t' : Task) (cs : list Call) :
    tasks s !! tid = Some t -> t <> Returned ->
    (forall index, t' <> AwaitScript index) ->
    tasks s' = <[tid := t']> (tasks s) ->
    calls s' = calls s ++ map (pair tid) cs ->
    Effect s s'.

(** Every logged call was made by an invocation that exists. *)
Definition callers_exist (s : App) : Prop :=
  forall tid, (length (tasks s) <= tid)%nat -> callsOf tid s = [].

(** An invocation that waits for [executeScript] has called nothing else. *)
Definition script_call_only (s : App) : Prop :=
  forall tid index,
    tasks s !! tid = Some (AwaitScript index) ->
    exists tab, callsOf tid s = [ExecuteScript tab index].

End Capture.

(** ** Concrete inputs *)

Module Scenario.

(** A 1600 x 1200 capture whose pixel at (i, j) is numbered i + 1600 j. *)
Definition fullImage : Raster.Image :=
  {| Raster.width := 1600; Raster.height := 1200;
     Raster.pixel := fun i j => Z.to_N (i + 1600 * j) |}.

(** The rect {x:10, y:20, width:200, height:100} on a display with
    devicePixelRatio 2. *)
Definition target : Rect.ViewportRect :=
  {| Rect.x := 10; Rect.y := 20; Rect.width := 200; Rect.height := 100;
     Rect.fullWidth := 200; Rect.fullHeight := 100;
     Rect.devicePixelRatio := 2 |}.

(** The same position with nothing visible. *)
Definition emptyTarget : Rect.ViewportRect :=
  {| Rect.x := 10; Rect.y := 20; Rect.width := 0; Rect.height := 0;
     Rect.fullWidth := 200; Rect.fullHeight := 100;
     Rect.devicePixelRatio := 2 |}.

(** A rect that reaches 200 raster pixels beyond the right edge of
    [fullImage]: x = 700, width = 400 at devicePixelRatio 2. *)
Definition wideTarget : Rect.ViewportRect :=
  {| Rect.x := 700; Rect.y := 50; Rect.width := 400; Rect.height := 200;
     Rect.fullWidth := 400; Rect.fullHeight := 200;
     Rect.devicePixelRatio := 2 |}.

(** An 800 x 600 page whose only iframe lies to the left of the viewport:
    left = -500.5, right = -300.3. *)
Definition offScreenBox : DOMRect.t :=
  {| DOMRect.x := -(5005 # 10); DOMRect.y := 40;
     DOMRect.width := 2002 # 10; DOMRect.height := 100 |}.

Definition offScreenPage : Geometry.Page :=
  {| Geometry.iframes := [offScreenBox];
     Geometry.innerWidth := 800; Geometry.innerHeight := 600;
     Geometry.devicePixelRatio := 1 |}.

(** An 800 x 600 page with an iframe that sticks out at the right. *)
Definition clippedBox : DOMRect.t :=
  {| DOMRect.x := 700; DOMRect.y := 50;
     DOMRect.width := 300; DOMRect.height := 200 |}.

Definition clippedPage : Geometry.Page :=
  {| Geometry.iframes := [clippedBox];
     Geometry.innerWidth := 800; Geometry.innerHeight := 600;
     Geometry.devicePixelRatio := 2 |}.

(** *** Two overlapping captures *)

(** The popup over a page with two iframes. *)
Definition popup : Capture.App :=
  Capture.initial ["https://a.example/"%string; "https://b.example/"%string]
    (Some 7) (Some 1) {| Zoom.clientWidth := 800; Zoom.clientHeight := 600 |}.

(** The 10 x 10 captures taken for A and for B. *)
Definition shotA : Raster.Image :=
  {| Raster.width := 10; Raster.height := 10;
     Raster.pixel := fun i j => Z.to_N (i + 10 * j) |}.

Definition shotB : Raster.Image :=
  {| Raster.width := 10; Raster.height := 10;
     Raster.pixel := fun i j => Z.to_N (100 + i + 10 * j) |}.

(** Iframe A is 2 x 2 at (1, 1), iframe B is 3 x 3 at (4, 4); dpr 1. *)
Definition rectA : Rect.ViewportRect :=
  {| Rect.x := 1; Rect.y := 1; Rect.width := 2; Rect.height := 2;
     Rect.fullWidth := 2; Rect.fullHeight := 2; Rect.devicePixelRatio := 1 |}.

Definition rectB : Rect.ViewportRect :=
  {| Rect.x := 4; Rect.y := 4; Rect.width := 3; Rect.height := 3;
     Rect.fullWidth := 3; Rect.fullHeight := 3; Rect.devicePixelRatio := 1 |}.

Definition replyWith (shot : Raster.Image) : JS.Settled (option Capture.Reply) :=
  JS.Fulfilled (Some {| Capture.error := None;
                        Capture.dataUrl := Some (Raster.Png shot) |}).

(** What [cropImage] makes of each capture. *)
Definition croppedA : Raster.Image :=
  Raster.drawImage shotA 1 1 2 2 2 2.

Definition croppedB : Raster.Image :=
  Raster.drawImage shotB 4 4 3 3 3 3.

(** capture(A): the modal of iframe 0 opens, [handleCapture] runs
    (invocation 0) and the page reports the rect of A. *)
Definition captureA : list Capture.Event :=
  [Capture.OpenModal 0; Capture.HandleCapture;
   Capture.ScriptSettled 0 (JS.Fulfilled (Some rectA))].

(** capture(B) before A resolves: the modal is closed and opened for
    iframe 1, [handleCapture] runs again (invocation 1), and B runs to
    its end. *)
Definition captureB : list Capture.Event :=
  [Capture.CloseModal; Capture.OpenModal 1; Capture.HandleCapture;
   Capture.ScriptSettled 1 (JS.Fulfilled (Some rectB));
   Capture.CaptureTabSettled 1 (replyWith shotB);
   Capture.CropSettled 1; Capture.ImgLoad].

(** Both invocations wait for their crop. *)
Definition bothCropping : list Capture.Event :=
  [Capture.OpenModal 0; Capture.HandleCapture;
   Capture.ScriptSettled 0 (JS.Fulfilled (Some rectA));
   Capture.CaptureTabSettled 0 (replyWith shotA);
   Capture.CloseModal; Capture.OpenModal 1; Capture.HandleCapture;
   Capture.ScriptSettled 1 (JS.Fulfilled (Some rectB));
   Capture.CaptureTabSettled 1 (replyWith shotB)].

(** The rest of A's asynchronous work, completing after B's. *)
Definition restOfA : list Capture.Event :=
  [Capture.CaptureTabSettled 0 (replyWith shotA);
   Capture.CropSettled 0; Capture.ImgLoad].

End Scenario.

(** ** handleScan, collectIframes and showState *)

Module Scan.

Import JS.

(** What [collectIframes] reads of an iframe element: the [src] property
    (the resolved URL, [''] without one), the [src] attribute as written,
    whether there is a [srcdoc] attribute, and the bounding box. *)
Module Element.

Record t : Type := {
  src : string;
  srcAttribute : option string;
  hasSrcdoc : bool;
  id : string;
  name : string;
  title : string;
  rect : DOMRect.t
}.

End Element.

(** The page at the time of the scan. *)
Record Document : Type := {
  iframes : list Element.t;
  innerWidth : Q;
  innerHeight : Q
}.

(** One entry of the list [collectIframes] returns. *)
Record Info : Type := {
  index : nat;
  src : string;
  srcdoc : bool;
  id : string;
  name : string;
  title : string;
  width : Z;
  height : Z;
  inViewport : bool
}.

(** [a || b] on strings: [''] is falsy. *)
Definition orElse (a b : string) : string :=
  if String.eqb a EmptyString then b else a.

(** The test behind [inViewport]. *)
Definition insideViewport (rect : DOMRect.t) (innerWidth innerHeight : Q) : bool :=
  Qle_bool 0 (DOMRect.top rect) && Qle_bool 0 (DOMRect.left rect)
  && Qle_bool (DOMRect.bottom rect) innerHeight
  && Qle_bool (DOMRect.right rect) innerWidth.

(** The callback of [Array.from(iframes).map]. *)
Definition describe (doc : Document) (index : nat) (iframe : Element.t) : Info :=
  {| index := index;
     src := orElse (Element.src iframe)
              (orElse (default EmptyString (Element.srcAttribute iframe)) EmptyString);
     srcdoc := Element.hasSrcdoc iframe;
     id := orElse (Element.id iframe) EmptyString;
     name := orElse (Element.name iframe) EmptyString;
     title := orElse (Element.title iframe) EmptyString;
     width := JS.round (DOMRect.width (Element.rect iframe));
     height := JS.round (DOMRect.height (Element.rect iframe));
     inViewport := insideViewport (Element.rect iframe)
                     (innerWidth doc) (innerHeight doc) |}.

Definition collectIframes (doc : Document) : list Info :=
  imap (describe doc) (iframes doc).

(** The filter of [handleScan]: [src || srcdoc]. *)
Definition valid (iframe : Info) : bool :=
  negb (String.eqb (src iframe) EmptyString) || srcdoc iframe.

(** The four state panels and what [showState] writes besides: a
    [...Hidden] field says that the panel carries the class [hidden],
    [errText] is the text of the [.err-text] span inside the empty
    panel, if there is one. *)
Record Panels : Type := {
  idleHidden : bool;
  loadingHidden : bool;
  resultHidden : bool;
  emptyHidden : bool;
  errText : option string
}.

(** The names [showState] is called with. *)
Inductive StateName : Type := idle | loading | result | empty | error.

Definition defaultError : string := "无法注入脚本（该页面可能不支持扩展注入）".

(** [s !== name] for [s] one of the four panels. *)
Definition isNot (name panel : StateName) : bool :=
  match name, panel with
  | idle, idle | loading, loading | result, result | empty, empty => false
  | _, _ => true
  end.

Definition showState (name : StateName) (errorMsg : string) (p : Panels) : Panels :=
  let toggled :=
    {| idleHidden := isNot name idle; loadingHidden := isNot name loading;
       resultHidden := isNot name result; emptyHidden := isNot name empty;
       errText := errText p |} in
  match name with
  | error =>
      {| idleHidden := idleHidden toggled; loadingHidden := loadingHidden toggled;
         resultHidden := resultHidden toggled; emptyHidden := false;
         errText := Some (orElse errorMsg defaultError) |}
  | _ => toggled
  end.

(** The part of the popup [handleScan] works on. *)
Record App : Type := {
  currentTabId : option Z;
  iframeList : list Info;
  panels : Panels;
  resultCount : nat;
  btnScanDisabled : bool
}.

(** [!currentTabId] *)
Definition noTab (s : App) : bool :=
  match currentTabId s with
  | Some tabId => (tabId =? 0)%Z
  | None => true
  end.

(** [handleScan] up to its [await]; the second component says whether
    the page script was started. *)
Definition handleScan (s : App) : App * bool :=
  if noTab s then
    ({| currentTabId := currentTabId s; iframeList := iframeList s;
        panels := showState empty EmptyString (panels s);
        resultCount := resultCount s; btnScanDisabled := btnScanDisabled s |},
     false)
  else
    ({| currentTabId := currentTabId s; iframeList := iframeList s;
        panels := showState loading EmptyString (panels s);
        resultCount := resultCount s; btnScanDisabled := true |},
     true).

(** [handleScan] after the [await]: [try] or [catch], then [finally].
    [None] as the fulfilled value stands for a missing [injected[0].result]. *)
Definition afterScan (r : Settled (option (list Info))) (s : App) : App :=
  match r with
  | Fulfilled injected =>
      let rawList := default [] injected in
      let kept := List.filter valid rawList in
      {| currentTabId := currentTabId s; iframeList := kept;
         panels := if (length kept =? 0)%nat
                   then showState empty EmptyString (panels s)
                   else showState result EmptyString (panels s);
         resultCount := if (length kept =? 0)%nat then resultCount s else length kept;
         btnScanDisabled := false |}
  | Rejected msg =>
      {| currentTabId := currentTabId s; iframeList := iframeList s;
         panels := showState error msg (panels s);
         resultCount := resultCount s; btnScanDisabled := false |}
  end.

(** One call of [handleScan] whose page script, if it is started, settles
    with [r]. *)
Definition scan (r : Settled (option (list Info))) (s : App) : App :=
  if snd (handleScan s) then afterScan r (fst (handleScan s)) else fst (handleScan s).

(** A scan of the page [doc] that goes through. *)
Definition scanned (doc : Document) (s : App) : App :=
  scan (Fulfilled (Some (collectIframes doc))) s.

(** How many of the four state panels are visible. *)
Definition visiblePanels (p : Panels) : nat :=
  length (List.filter negb [idleHidden p; loadingHidden p; resultHidden p; emptyHidden p]).

(** The iframes before page ordinal [n] that the filter drops. *)
Definition droppedBefore (n : nat) (rawList : list Info) : nat :=
  length (List.filter (fun iframe => negb (valid iframe)) (take n rawList)).

End Scan.

(** ** The service worker *)

Module Worker.

Import JS.

(** [captureTab]: the outcome of [chrome.tabs.captureVisibleTab] becomes
    [{ dataUrl }] or [{ error: err.message }]; it never rejects. *)
Definition captureTab (captured : Settled (option Raster.DataUrl)) : Capture.Reply :=
  match captured with
  | Fulfilled d => {| Capture.error := None; Capture.dataUrl := d |}
  | Rejected msg => {| Capture.error := Some msg; Capture.dataUrl := None |}
  end.

(** What [sendMessage({ type: 'CAPTURE_TAB', ... })] settles with in the
    popup: the listener answers with the value of [captureTab]. *)
Definition onMessage (captured : Settled (option Raster.DataUrl))
  : Settled (option Capture.Reply) :=
  Fulfilled (Some (captureTab captured)).

End Worker.

(** ** The order of an invocation's calls *)

Module Protocol.

Import Capture.

(** One resumption of an invocation: where it waited, where it goes and
    which collaborators it calls on the way. *)
Inductive Move : Task -> Task -> list Call -> Prop :=
| ScriptFailed (index : Z) :
    Move (AwaitScript index) Returned []
| ScriptDone (index : Z) (rect : Rect.ViewportRect) (tabId windowId : option Z) :
    Move (AwaitScript index) (AwaitCaptureTab rect) [SendCaptureTab tabId windowId]
| CaptureFailed (rect : Rect.ViewportRect) :
    Move (AwaitCaptureTab rect) Returned []
| CaptureDone (rect : Rect.ViewportRect) (d : Raster.DataUrl) :
    Move (AwaitCaptureTab rect) (AwaitCrop d rect) [CropImage]
| CropFailed (d : Raster.DataUrl) (rect : Rect.ViewportRect) :
    Move (AwaitCrop d rect) Returned []
| CropDone (d url : Raster.DataUrl) (rect : Rect.ViewportRect) :
    Move (AwaitCrop d rect) (AwaitImgLoad url) []
| Loaded (url : Raster.DataUrl) :
    Move (AwaitImgLoad url) Returned [].

(** The [finally] block has run: the loading indicator is hidden and the
    capture button is enabled. *)
Definition settled (p : Panel) : Prop :=
  btnDisabled p = false /\ snapLoadingHidden p = true.

(** What a step does to [tasks] and [calls], by the kind of resumption:
    nothing, the start of an invocation for the entry the modal shows, or
    one move of an invocation, which leaves the panel settled when the
    invocation returns. *)
Inductive Progress (s s' : App) : Prop :=
| Idle :
    tasks s' = tasks s -> calls s' = calls s -> Progress s s'
| Begun (tab : option Z) (index : Z) :
    index = activeModalIndex s -> 0 <= index ->
    tasks s' = tasks s ++ [AwaitScript index] ->
    calls s' = calls s ++ [(length (tasks s), ExecuteScript tab index)] ->
    Progress s s'
| Moved (tid : nat) (t t' : Task) (cs : list Call) :
    tasks s !! tid = Some t -> Move t t' cs ->
    tasks s' = <[tid := t']> (tasks s) ->
    calls s' = calls s ++ map (pair tid) cs ->
    (t' = Returned -> settled (panel s')) ->
    Progress s s'.

(** The events of an invocation [tid] in which every step succeeds: the
    page reports [rect], the worker captures [shot], the crop settles
    and the image element loads it. *)
Definition success (tid : nat) (rect : Rect.ViewportRect) (shot : Raster.Image)
  : list Event :=
  [ScriptSettled tid (JS.Fulfilled (Some rect));
   CaptureTabSettled tid (Worker.onMessage (JS.Fulfilled (Some (Raster.Png shot))));
   CropSettled tid;
   ImgLoad].

(** The calls an invocation has made when it is at [t]: the page script,
    then the capture of the tab, then the crop, as far as it got. *)
Definition expected (t : Task) (cs : list Call) : Prop :=
  match t, cs with
  | AwaitScript index, [ExecuteScript _ i] => i = index
  | AwaitCaptureTab _, [ExecuteScript _ _; SendCaptureTab _ _] => True
  | (AwaitCrop _ _ | AwaitImgLoad _),
    [ExecuteScript _ _; SendCaptureTab _ _; CropImage] => True
  | Returned, ([ExecuteScript _ _]
              | [ExecuteScript _ _; SendCaptureTab _ _]
              | [ExecuteScript _ _; SendCaptureTab _ _; CropImage]) => True
  | _, _ => False
  end.

Definition protocol_kept (s : App) : Prop :=
  forall tid,
    match tasks s !! tid with
    | Some t => expected t (callsOf tid s)
    | None => callsOf tid s = []
    end.

(** The modal is closed or shows an entry of [iframeList], and every
    page script was started for an entry of [iframeList]. *)
Definition targets_listed (s : App) : Prop :=
  (activeModalIndex s = -1 \/ hasIframe s (activeModalIndex s) = true) /\
  forall tid tab index,
    (tid, ExecuteScript tab index) ∈ calls s -> hasIframe s index = true.

End Protocol.

(** ** Timers *)

(** [setTimeout] and [clearTimeout] of the popup window: [pending] holds
    the callbacks that are scheduled and not yet run or cleared, each
    under its timer id with the data of type [A] it closes over; ids are
    handed out in increasing order. *)
Module Timers.

Record t (A : Type) : Type := {
  pending : list (nat * A);
  next : nat
}.

Arguments pending {A} _.
Arguments next {A} _.

Definition empty {A : Type} : t A := {| pending := []; next := 1 |}.

(** [setTimeout(callback, delay)]: the new state and the id returned. *)
Definition setTimeout {A : Type} (callback : A) (timers : t A) : t A * nat :=
  ({| pending := pending timers ++ [(next timers, callback)];
      next := S (next timers) |},
   next timers).

(** [clearTimeout(id)]; [None] is a variable that holds no id yet. *)
Definition clearTimeout {A : Type} (id : option nat) (timers : t A) : t A :=
  match id with
  | Some n =>
      {| pending := List.filter (fun c => negb (Nat.eqb (fst c) n)) (pending timers);
         next := next timers |}
  | None => timers
  end.

(** The callback timer [id] runs when it fires, if it is still pending. *)
Definition callback {A : Type} (id : nat) (timers : t A) : option A :=
  snd <$> List.find (fun c => Nat.eqb (fst c) id) (pending timers).

End Timers.

(** ** highlightPageIframe and clearPageIframeHighlight *)

Module Highlight.

(** What the popup injects into the page. *)
Inductive PageCall : Type :=
| Show (index : Z)     (* the function of highlightPageIframe, args: [index] *)
| Clear.               (* the function of clearPageIframeHighlight *)

(** [_highlightTimer], the timers and the injections made so far. *)
Record App : Type := {
  currentTabId : option Z;
  highlightTimer : option nat;
  timers : Timers.t Z;
  injected : list PageCall
}.

Definition noTab (s : App) : bool :=
  match currentTabId s with
  | Some tabId => (tabId =? 0)%Z
  | None => true
  end.

(** [highlightPageIframe(index)]: the pending highlight is cancelled and
    a new one is scheduled, 80 ms later. *)
Definition highlightPageIframe (index : Z) (s : App) : App :=
  let cleared := Timers.clearTimeout (highlightTimer s) (timers s) in
  let scheduled := Timers.setTimeout index cleared in
  {| currentTabId := currentTabId s;
     highlightTimer := Some (snd scheduled);
     timers := fst scheduled;
     injected := injected s |}.

(** The callback of that timer, for the hover over [index]. *)
Definition onHighlightTimer (index : Z) (s : App) : App :=
  if noTab s then s
  else
    {| currentTabId := currentTabId s; highlightTimer := highlightTimer s;
       timers := timers s; injected := injected s ++ [Show index] |}.

Definition clearPageIframeHighlight (s : App) : App :=
  let cleared := Timers.clearTimeout (highlightTimer s) (timers s) in
  {| currentTabId := currentTabId s; highlightTimer := highlightTimer s;
     timers := cleared;
     injected := if noTab s then injected s else injected s ++ [Clear] |}.

(** The pointer enters the card of [index], leaves a card (or the popup
    loses the pointer or the focus), or timer [id] fires. *)
Inductive Event : Type :=
| MouseEnter (index : Z)
| MouseLeave
| Fire (id : nat).

Definition step (s : App) (e : Event) : App :=
  match e with
  | MouseEnter index => highlightPageIframe index s
  | MouseLeave => clearPageIframeHighlight s
  | Fire id =>
      match Timers.callback id (timers s) with
      | Some index =>
          onHighlightTimer index
            {| currentTabId := currentTabId s; highlightTimer := highlightTimer s;
               timers := Timers.clearTimeout (Some id) (timers s);
               injected := injected s |}
      | None => s
      end
  end.

Definition run (s : App) (events : list Event) : App :=
  fold_left step events s.

Definition initial (tabId : option Z) : App :=
  {| currentTabId := tabId; highlightTimer := None;
     timers := Timers.empty; injected := [] |}.

(** Every pending callback belongs to the timer [_highlightTimer] names,
    whose id has been handed out. *)
Definition only_last_pending (s : App) : Prop :=
  forall id index,
    In (id, index) (Timers.pending (timers s)) ->
    highlightTimer s = Some id /\ (id < Timers.next (timers s))%nat.

End Highlight.

(** ** openIframePreview *)

Module Preview.

Local Open Scope Q_scope.

(** What [applyScale] writes: the size of the iframe and of its wrapper
    in CSS pixels, the scale of the wrapper, its offsets and the
    percentage on the badge. *)
Record Layout : Type := {
  frameWidth : Z;
  frameHeight : Z;
  scale : Q;
  left : Q;
  top : Q;
  badge : Z
}.

(** [applyScale] for a body of [bw] x [bh] and the original size
    [origWidth] x [origHeight] of the iframe (0 when unknown). *)
Definition applyScale (bw bh origWidth origHeight : Z) : Layout :=
  let iw := if (origWidth >? 0)%Z then origWidth else bw in
  let ih := if (origHeight >? 0)%Z then origHeight else bh in
  let scale := JS.min3 (inject_Z bw / inject_Z iw) (inject_Z bh / inject_Z ih) 1 in
  {| frameWidth := iw;
     frameHeight := ih;
     scale := scale;
     left := (inject_Z bw - inject_Z iw * scale) / 2;
     top := (inject_Z bh - inject_Z ih * scale) / 2;
     badge := JS.round (scale * 100) |}.

(** The preview modal.  [loadTimer] is the variable of that name in the
    closure of the last [openIframePreview] call; the callbacks of its
    timers all do the same and close over no data. *)
Record App : Type := {
  modalHidden : bool;
  frameSrc : string;
  loadingHidden : bool;
  blockedHidden : bool;
  url : string;
  loadTimer : option nat;
  timers : Timers.t unit;
  layouts : nat      (* how often [applyScale] has run *)
}.

(** The callback of the 8 s timers: the preview is marked as blocked. *)
Definition onTimeout (s : App) : App :=
  {| modalHidden := modalHidden s; frameSrc := frameSrc s;
     loadingHidden := true; blockedHidden := false;
     url := url s; loadTimer := loadTimer s; timers := timers s;
     layouts := layouts s |}.

(** [openIframePreview(url)], without the animation frame. *)
Definition openIframePreview (target : string) (s : App) : App :=
  let scheduled := Timers.setTimeout tt (timers s) in
  {| modalHidden := false; frameSrc := target;
     loadingHidden := false; blockedHidden := true;
     url := target; loadTimer := Some (snd scheduled); timers := fst scheduled;
     layouts := layouts s |}.

(** The [load] listener. *)
Definition onLoad (s : App) : App :=
  {| modalHidden := modalHidden s; frameSrc := frameSrc s;
     loadingHidden := true; blockedHidden := blockedHidden s;
     url := url s; loadTimer := loadTimer s;
     timers := Timers.clearTimeout (loadTimer s) (timers s);
     layouts := S (layouts s) |}.

(** The [error] listener. *)
Definition onError (s : App) : App :=
  {| modalHidden := modalHidden s; frameSrc := frameSrc s;
     loadingHidden := true; blockedHidden := false;
     url := url s; loadTimer := loadTimer s;
     timers := Timers.clearTimeout (loadTimer s) (timers s);
     layouts := layouts s |}.

(** The reload button: a new timer is set, the old one is not cleared. *)
Definition onReload (s : App) : App :=
  let scheduled := Timers.setTimeout tt (timers s) in
  {| modalHidden := modalHidden s; frameSrc := url s;
     loadingHidden := false; blockedHidden := true;
     url := url s; loadTimer := Some (snd scheduled); timers := fst scheduled;
     layouts := layouts s |}.

(** The close button. *)
Definition onClose (s : App) : App :=
  {| modalHidden := true; frameSrc := EmptyString;
     loadingHidden := loadingHidden s; blockedHidden := blockedHidden s;
     url := url s; loadTimer := loadTimer s;
     timers := Timers.clearTimeout (loadTimer s) (timers s);
     layouts := layouts s |}.

Inductive Event : Type :=
| Open (target : string)
| Frame                   (* the animation frame requested on opening *)
| Load
| Error
| Timeout (id : nat)
| Reload
| Close.

Definition step (s : App) (e : Event) : App :=
  match e with
  | Open target => openIframePreview target s
  | Frame =>
      {| modalHidden := modalHidden s; frameSrc := frameSrc s;
         loadingHidden := loadingHidden s; blockedHidden := blockedHidden s;
         url := url s; loadTimer := loadTimer s; timers := timers s;
         layouts := S (layouts s) |}
  | Load => onLoad s
  | Error => onError s
  | Timeout id =>
      match Timers.callback id (timers s) with
      | Some _ =>
          onTimeout
            {| modalHidden := modalHidden s; frameSrc := frameSrc s;
               loadingHidden := loadingHidden s; blockedHidden := blockedHidden s;
               url := url s; loadTimer := loadTimer s;
               timers := Timers.clearTimeout (Some id) (timers s);
               layouts := layouts s |}
      | None => s
      end
  | Reload => onReload s
  | Close => onClose s
  end.

Definition run (s : App) (events : list Event) : App :=
  fold_left step events s.

(** The popup before any preview was opened. *)
Definition initial : App :=
  {| modalHidden := true; frameSrc := EmptyString;
     loadingHidden := true; blockedHidden := true;
     url := EmptyString; loadTimer := None; timers := Timers.empty;
     layouts := 0 |}.

End Preview.

(** ** escHtml and truncate *)

Module Html.

Local Open Scope string_scope.

(** [s.replace(/c/g, by)] for a pattern of one character.  Strings are
    UTF-8 here; the characters [escHtml] looks for are ASCII, and an
    ASCII byte in UTF-8 is always that character, so replacing bytes is
    replacing characters. *)
Fixpoint replaceAll (c : ascii) (by_ : string) (s : string) : string :=
  match s with
  | EmptyString => EmptyString
  | String a rest =>
      if Ascii.eqb a c then by_ ++ replaceAll c by_ rest
      else String a (replaceAll c by_ rest)
  end.

Definition amp : ascii := "&"%char.
Definition lt : ascii := "<"%char.
Definition gt : ascii := ">"%char.
Definition quot : ascii := "034"%char.

(** [String(s ?? '')] followed by the four replacements, in the order of
    the source; [None] is [null] or [undefined]. *)
Definition escHtml (s : option string) : string :=
  replaceAll quot "&quot;"
    (replaceAll gt "&gt;"
       (replaceAll lt "&lt;"
          (replaceAll amp "&amp;" (default EmptyString s)))).

(** Whether [c] occurs in [s]. *)
Fixpoint occurs (c : ascii) (s : string) : bool :=
  match s with
  | EmptyString => false
  | String a rest => Ascii.eqb a c || occurs c rest
  end.

(** What the four replacements together make of one character. *)
Definition escapeChar (a : ascii) : string :=
  if Ascii.eqb a amp then "&amp;"
  else if Ascii.eqb a lt then "&lt;"
  else if Ascii.eqb a gt then "&gt;"
  else if Ascii.eqb a quot then "&quot;"
  else String a EmptyString.

End Html.

Module Text.

(** A JavaScript string as its UTF-16 code units: [length] and [slice]
    count these. *)
Definition CodeUnit : Type := N.

(** ['…'], U+2026. *)
Definition ellipsis : CodeUnit := 8230%N.

(** [str.slice(0, to)] for an integer [to]: a negative [to] counts from
    the end. *)
Definition slice0 (str : list CodeUnit) (to : Z) : list CodeUnit :=
  if to <? 0 then take (Z.to_nat (Z.of_nat (length str) + to)) str
  else take (Z.to_nat to) str.

(** [truncate(str, max)] for an integer [max]; [None] is [null] or
    [undefined]. *)
Definition truncate (str : option (list CodeUnit)) (max : Z) : list CodeUnit :=
  match str with
  | None | Some [] => []
  | Some s =>
      if Z.of_nat (length s) >? max then slice0 s max ++ [ellipsis] else s
  end.

End Text.

(** ** More concrete inputs *)

Module Inputs.

(** A 300 x 200 iframe at (100, 50), inside an 800 x 600 viewport. *)
Definition insideBox : DOMRect.t :=
  {| DOMRect.x := 100; DOMRect.y := 50;
     DOMRect.width := 300; DOMRect.height := 200 |}.

Definition widePage : Geometry.Page :=
  {| Geometry.iframes := [insideBox];
     Geometry.innerWidth := 800; Geometry.innerHeight := 600;
     Geometry.devicePixelRatio := 2 |}.

(** A page whose first iframe has neither src nor srcdoc and whose
    second iframe shows https://a.example/. *)
Definition bareFrame : Scan.Element.t :=
  {| Scan.Element.src := EmptyString; Scan.Element.srcAttribute := None;
     Scan.Element.hasSrcdoc := false; Scan.Element.id := EmptyString;
     Scan.Element.name := EmptyString; Scan.Element.title := EmptyString;
     Scan.Element.rect := insideBox |}.

Definition frameA : Scan.Element.t :=
  {| Scan.Element.src := "https://a.example/?x=1";
     Scan.Element.srcAttribute := Some "https://a.example/?x=1"%string;
     Scan.Element.hasSrcdoc := false; Scan.Element.id := "a";
     Scan.Element.name := EmptyString; Scan.Element.title := EmptyString;
     Scan.Element.rect := insideBox |}.

Definition mixedDocument : Scan.Document :=
  {| Scan.iframes := [bareFrame; frameA];
     Scan.innerWidth := 800; Scan.innerHeight := 600 |}.

(** What [collectIframes] makes of [frameA] in [mixedDocument]. *)
Definition infoA : Scan.Info := Scan.describe mixedDocument 1 frameA.

(** The popup on tab 7 before its first scan. *)
Definition beforeScan : Scan.App :=
  {| Scan.currentTabId := Some 7; Scan.iframeList := [];
     Scan.panels := {| Scan.idleHidden := false; Scan.loadingHidden := true;
                       Scan.resultHidden := true; Scan.emptyHidden := true;
                       Scan.errText := None |};
     Scan.resultCount := 0; Scan.btnScanDisabled := false |}.

End Inputs.

(** * Properties *)

(** ** cropImage *)

Section Crop.

Import Cropper.

(** The raster coordinates as the spec writes them: each CSS coordinate
    times dpr, rounded, where dpr is the ratio [cropImage] works with
    ([dpr rect], that is [rect.devicePixelRatio || 1]). *)
Local Abbreviation rasterX r := (JS.round (Rect.x r * dpr r)).
Local Abbreviation rasterY r := (JS.round (Rect.y r * dpr r)).
Local Abbreviation rasterW r := (JS.round (Rect.width r * dpr r)).
Local Abbreviation rasterH r := (JS.round (Rect.height r * dpr r)).
Local Abbreviation imageW im := (Z.of_N (Raster.width im)).
Local Abbreviation imageH im := (Z.of_N (Raster.height im)).

(** [dpr] is the ratio stored in the rect unless that is 0. *)
Lemma dpr_nonzero (rect : Rect.ViewportRect) :
  ~ (Rect.devicePixelRatio rect == 0)%Q -> dpr rect = Rect.devicePixelRatio rect.
Proof.
  intros H. unfold dpr, JS.orOne.
  destruct (Qeq_bool (Rect.devicePixelRatio rect) 0) eqn:E; [|reflexivity].
  apply Qeq_bool_iff in E. contradiction.
Qed.

Lemma dpr_zero (rect : Rect.ViewportRect) :
  (Rect.devicePixelRatio rect == 0)%Q -> dpr rect = 1%Q.
Proof.
  intros H. unfold dpr, JS.orOne. apply Qeq_bool_iff in H. now rewrite H.
Qed.

(** What [crop] does, by the clamped size alone. *)
Lemma crop_cases (img : Raster.Image) (rect : Rect.ViewportRect) :
  (clampedSw img rect <= 0 \/ clampedSh img rect <= 0) /\
    crop img rect = inl OutOfBounds
  \/
  0 < clampedSw img rect /\ 0 < clampedSh img rect /\
    crop img rect =
      inr (Raster.Png (Raster.drawImage img (sx rect) (sy rect)
                         (clampedSw img rect) (clampedSh img rect)
                         (Z.to_N (clampedSw img rect)) (Z.to_N (clampedSh img rect)))).
Proof.
  unfold crop.
  destruct (clampedSw img rect <=? 0) eqn:Ew; [left; split; [lia|reflexivity]|].
  destruct (clampedSh img rect <=? 0) eqn:Eh; [left; split; [lia|reflexivity]|].
  right. cbn [orb]. repeat split; lia.
Qed.

(** A pixel of the canvas that lies over the image is the image's. *)
Lemma drawImage_pixel (img : Raster.Image) (x0 y0 w h : Z) (cw ch : N) (i j : Z) :
  0 <= i < w -> 0 <= j < h ->
  0 <= x0 + i < imageW img -> 0 <= y0 + j < imageH img ->
  Raster.pixel (Raster.drawImage img x0 y0 w h cw ch) i j
  = Raster.pixel img (x0 + i) (y0 + j).
Proof.
  intros Hi Hj Hx Hy. cbn [Raster.drawImage Raster.pixel]. unfold Raster.inside.
  replace (0 <=? i) with true by lia. replace (i <? w) with true by lia.
  replace (0 <=? j) with true by lia. replace (j <? h) with true by lia.
  replace (0 <=? x0 + i) with true by lia.
  replace (x0 + i <? imageW img) with true by lia.
  replace (0 <=? y0 + j) with true by lia.
  replace (y0 + j <? imageH img) with true by lia.
  reflexivity.
Qed.

(** A non-empty raster rectangle inside the image is copied as it is. *)
Lemma crop_inside (img : Raster.Image) (rect : Rect.ViewportRect) :
  0 <= sx rect -> 0 <= sy rect -> 1 <= sw rect -> 1 <= sh rect ->
  sx rect + sw rect <= imageW img -> sy rect + sh rect <= imageH img ->
  exists out,
    cropImage (Raster.Png img) rect = inr (Raster.Png out) /\
    imageW out = sw rect /\ imageH out = sh rect /\
    forall i j, 0 <= i < sw rect -> 0 <= j < sh rect ->
      Raster.pixel out i j = Raster.pixel img (sx rect + i) (sy rect + j).
Proof.
  intros Hx Hy Hw Hh Hr Hb. cbn [cropImage].
  assert (Ew : clampedSw img rect = sw rect) by (unfold clampedSw; lia).
  assert (Eh : clampedSh img rect = sh rect) by (unfold clampedSh; lia).
  destruct (crop_cases img rect) as [[Hle _]|(_ & _ & ->)]; [lia|].
  rewrite Ew, Eh. eexists. split; [reflexivity|].
  cbn [Raster.drawImage Raster.width Raster.height].
  split; [lia|]. split; [lia|].
  intros i j Hi Hj. apply drawImage_pixel; lia.
Qed.

(** C1 (as amended): for every captured image and every rect whose
    raster rectangle -- each coordinate times dpr, rounded -- is at least
    one pixel wide and one pixel high and lies inside the image,
    [cropImage] succeeds with an image of size
    round(width * dpr) x round(height * dpr) whose pixel (i, j) is the
    source pixel (round(x * dpr) + i, round(y * dpr) + j). *)
Theorem crop_inside_bounds (img : Raster.Image) (rect : Rect.ViewportRect) :
  0 <= rasterX rect -> 0 <= rasterY rect ->
  1 <= rasterW rect -> 1 <= rasterH rect ->
  rasterX rect + rasterW rect <= imageW img ->
  rasterY rect + rasterH rect <= imageH img ->
  exists out,
    cropImage (Raster.Png img) rect = inr (Raster.Png out) /\
    imageW out = rasterW rect /\ imageH out = rasterH rect /\
    forall i j, 0 <= i < rasterW rect -> 0 <= j < rasterH rect ->
      Raster.pixel out i j = Raster.pixel img (rasterX rect + i) (rasterY rect + j).
Proof. apply crop_inside. Qed.

(** The end-to-end scenario: {x:10, y:20, width:200, height:100} at
    dpr 2 on a 1600 x 1200 capture gives the 400 x 200 image at raster
    offset (20, 40). *)
Lemma crop_inside_bounds_scenario :
  exists out,
    cropImage (Raster.Png Scenario.fullImage) Scenario.target = inr (Raster.Png out) /\
    imageW out = 400 /\ imageH out = 200 /\
    forall i j, 0 <= i < 400 -> 0 <= j < 200 ->
      Raster.pixel out i j = Raster.pixel Scenario.fullImage (20 + i) (40 + j).
Proof.
  apply (crop_inside_bounds Scenario.fullImage Scenario.target);
    vm_compute; congruence.
Defined.

(** The same scenario on any 1600 x 1200 capture. *)
Lemma crop_scenario_any_image (img : Raster.Image) :
  Raster.width img = 1600%N -> Raster.height img = 1200%N ->
  exists out,
    cropImage (Raster.Png img) Scenario.target = inr (Raster.Png out) /\
    Raster.width out = 400%N /\ Raster.height out = 200%N /\
    forall i j, 0 <= i < 400 -> 0 <= j < 200 ->
      Raster.pixel out i j = Raster.pixel img (20 + i) (40 + j).
Proof.
  intros Hw Hh.
  destruct (crop_inside img Scenario.target) as (out & E & Ew & Eh & Hp);
    try (rewrite ?Hw, ?Hh; vm_compute; congruence).
  exists out. split; [exact E|].
  change (sw Scenario.target) with 400 in *. change (sh Scenario.target) with 200 in *.
  change (sx Scenario.target) with 20 in *. change (sy Scenario.target) with 40 in *.
  repeat split; [lia | lia | exact Hp].
Qed.

(** C1 (as stated) fails: the raster rectangle of [Scenario.emptyTarget]
    is (20, 40, 0, 0), inside the 1600 x 1200 image, and [cropImage]
    rejects it. *)
Lemma crop_inside_bounds_empty_rect :
  (0 <= rasterX Scenario.emptyTarget /\ 0 <= rasterY Scenario.emptyTarget /\
   rasterX Scenario.emptyTarget + rasterW Scenario.emptyTarget
     <= imageW Scenario.fullImage /\
   rasterY Scenario.emptyTarget + rasterH Scenario.emptyTarget
     <= imageH Scenario.fullImage) /\
  cropImage (Raster.Png Scenario.fullImage) Scenario.emptyTarget = inl OutOfBounds.
Proof.
  vm_compute. repeat split; congruence.
Qed.

(** C2: for every captured image and every rect, [cropImage] clamps the
    source size to
    min(round(width * dpr), imageWidth - round(x * dpr)) and
    min(round(height * dpr), imageHeight - round(y * dpr)); it rejects
    with OutOfBounds exactly when one of the two is <= 0, and otherwise
    succeeds with an image of exactly the clamped size, which is then the
    minimum of the requested and the available size and positive. *)
Theorem crop_clamps_to_image (img : Raster.Image) (rect : Rect.ViewportRect) :
  (cropImage (Raster.Png img) rect = inl OutOfBounds <->
     Z.min (rasterW rect) (imageW img - rasterX rect) <= 0 \/
     Z.min (rasterH rect) (imageH img - rasterY rect) <= 0) /\
  (forall e, cropImage (Raster.Png img) rect = inl e -> e = OutOfBounds) /\
  (0 < Z.min (rasterW rect) (imageW img - rasterX rect) ->
   0 < Z.min (rasterH rect) (imageH img - rasterY rect) ->
   exists out,
     cropImage (Raster.Png img) rect = inr (Raster.Png out) /\
     imageW out = Z.min (rasterW rect) (imageW img - rasterX rect) /\
     imageH out = Z.min (rasterH rect) (imageH img - rasterY rect)).
Proof.
  change (JS.round (Rect.x rect * dpr rect)) with (sx rect).
  change (JS.round (Rect.y rect * dpr rect)) with (sy rect).
  change (JS.round (Rect.width rect * dpr rect)) with (sw rect).
  change (JS.round (Rect.height rect * dpr rect)) with (sh rect).
  fold (clampedSw img rect) (clampedSh img rect). cbn [cropImage].
  destruct (crop_cases img rect) as [[Hle E]|(Hw & Hh & E)]; rewrite E.
  - split; [tauto|]. split; [congruence|lia].
  - split; [split; [discriminate|lia]|]. split; [discriminate|].
    intros _ _. eexists. split; [reflexivity|].
    cbn [Raster.drawImage Raster.width Raster.height]. lia.
Qed.

(** [Scenario.wideTarget]: the rect sticks out of the capture, the
    crop is clamped. *)
Lemma crop_clamps_to_image_scenario :
  (cropImage (Raster.Png Scenario.fullImage) Scenario.wideTarget = inl OutOfBounds <->
     Z.min 800 (1600 - 1400) <= 0 \/ Z.min 400 (1200 - 100) <= 0) /\
  (forall e, cropImage (Raster.Png Scenario.fullImage) Scenario.wideTarget = inl e ->
     e = OutOfBounds) /\
  (0 < Z.min 800 (1600 - 1400) -> 0 < Z.min 400 (1200 - 100) ->
   exists out,
     cropImage (Raster.Png Scenario.fullImage) Scenario.wideTarget
       = inr (Raster.Png out) /\
     imageW out = Z.min 800 (1600 - 1400) /\
     imageH out = Z.min 400 (1200 - 100)).
Proof.
  apply (crop_clamps_to_image Scenario.fullImage Scenario.wideTarget).
Defined.

End Crop.

(** ** scrollAndGetRect *)

Section VisibleRect.

Import Geometry.

(** [Math.round] gives a non-negative integer from -1/2 on. *)
Lemma round_nonneg_iff (v : Q) : 0 <= JS.round v <-> (- (1 # 2) <= v)%Q.
Proof.
  unfold JS.round. split; intros H.
  - pose proof (Qfloor_le (v + (1 # 2))) as Hle.
    assert (H0 : (inject_Z 0 <= inject_Z (Qfloor (v + (1 # 2))))%Q)
      by now rewrite <- Zle_Qle.
    change (inject_Z 0) with 0%Q in H0.
    set (q := inject_Z (Qfloor (v + (1 # 2)))) in *. clearbody q. lra.
  - assert (H' : (inject_Z 0 <= v + (1 # 2))%Q)
      by (change (inject_Z 0) with 0%Q; lra).
    apply Qfloor_resp_le in H'. now rewrite Qfloor_Z in H'.
Qed.

Lemma inject_Z_nonneg (n : Z) : (0 <= inject_Z n)%Q <-> 0 <= n.
Proof. change 0%Q with (inject_Z 0). now rewrite <- Zle_Qle. Qed.

(** C3 (as amended): when the target exists, the resolver reports
    x = max(left, 0), y = max(top, 0),
    width = round(min(right, innerWidth) - x) and
    height = round(min(bottom, innerHeight) - y).  Width and height are
    not clamped at zero: the width (height) is non-negative exactly when
    the clamped right (bottom) edge is at most half a pixel before x (y),
    and negative for a target further off-screen. *)
Theorem visible_rect_reported (page : Page) (index : Z) (v : Rect.ViewportRect) :
  scrollAndGetRect page index = Some v ->
  exists box,
    item page index = Some box /\
    Rect.x v = Qmax (DOMRect.left box) 0 /\
    Rect.y v = Qmax (DOMRect.top box) 0 /\
    Rect.width v
      = inject_Z (JS.round (Qmin (DOMRect.right box) (innerWidth page) - Rect.x v)) /\
    Rect.height v
      = inject_Z (JS.round (Qmin (DOMRect.bottom box) (innerHeight page) - Rect.y v)) /\
    ((0 <= Rect.width v)%Q <->
       (Rect.x v - (1 # 2) <= Qmin (DOMRect.right box) (innerWidth page))%Q) /\
    ((0 <= Rect.height v)%Q <->
       (Rect.y v - (1 # 2) <= Qmin (DOMRect.bottom box) (innerHeight page))%Q).
Proof.
  unfold scrollAndGetRect. destruct (item page index) as [box|] eqn:E; [|discriminate].
  intros [= <-]. exists box. cbn [visibleRect Rect.x Rect.y Rect.width Rect.height].
  repeat split; try reflexivity; rewrite inject_Z_nonneg, round_nonneg_iff; lra.
Qed.

(** [Scenario.clippedPage]: the iframe spans 700..1000 of an 800 wide
    viewport, 100 CSS pixels of it are visible. *)
Lemma visible_rect_reported_scenario :
  exists v,
    scrollAndGetRect Scenario.clippedPage 0 = Some v /\
    (Rect.x v == 700)%Q /\ (Rect.y v == 50)%Q /\
    (Rect.width v == 100)%Q /\ (Rect.height v == 200)%Q.
Proof.
  eexists. split; [reflexivity|].
  destruct (visible_rect_reported Scenario.clippedPage 0 _ eq_refl)
    as (box & Hbox & Hx & Hy & Hw & Hh & _).
  injection Hbox as <-.
  rewrite Hw, Hh, Hx, Hy. vm_compute. repeat split; reflexivity.
Defined.

(** C3 (as stated) fails: for [Scenario.offScreenPage] the clamped right
    edge is -300.3 and x is 0; the reported width is -300, which is
    negative and is not right - x. *)
Lemma visible_rect_negative_width :
  scrollAndGetRect Scenario.offScreenPage 0
    = Some (visibleRect Scenario.offScreenBox Scenario.offScreenPage) /\
  Rect.x (visibleRect Scenario.offScreenBox Scenario.offScreenPage) = 0%Q /\
  (Qmin (DOMRect.right Scenario.offScreenBox) (innerWidth Scenario.offScreenPage)
     == - (3003 # 10))%Q /\
  Rect.width (visibleRect Scenario.offScreenBox Scenario.offScreenPage)
    = inject_Z (-300) /\
  (Rect.width (visibleRect Scenario.offScreenBox Scenario.offScreenPage) < 0)%Q.
Proof.
  vm_compute. repeat split; reflexivity.
Qed.

End VisibleRect.

(** ** The zoom engine *)

Section ZoomEngine.

Import Zoom.

Local Open Scope Q_scope.

Lemma clamped_scale_bounds (newScale : Q) :
  MIN <= Qmax MIN (Qmin MAX newScale) <= MAX.
Proof.
  split; [apply Q.le_max_l|].
  apply Q.max_lub; [unfold MIN, MAX; lra | apply Q.le_min_l].
Qed.

Lemma zoomAtPoint_scale (newScale vpX vpY : Q) (zoom : State) :
  scale (zoomAtPoint newScale vpX vpY zoom) = Qmax MIN (Qmin MAX newScale).
Proof. reflexivity. Qed.

(** C6: when the scale before the call is positive, the image-space
    coordinate under the anchor (px, py) before [zoomAtPoint],
    ((px - tx) / scale, (py - ty) / scale), is the one under (px, py)
    after it, for every requested scale; numbers are exact rationals, so
    the two coordinates are equal. *)
Theorem zoom_anchor_invariant (s2 px py : Q) (zoom : State) :
  0 < scale zoom ->
  (px - tx (zoomAtPoint s2 px py zoom)) / scale (zoomAtPoint s2 px py zoom)
    == (px - tx zoom) / scale zoom /\
  (py - ty (zoomAtPoint s2 px py zoom)) / scale (zoomAtPoint s2 px py zoom)
    == (py - ty zoom) / scale zoom.
Proof.
  intros Hs. rewrite zoomAtPoint_scale. cbn [zoomAtPoint tx ty].
  pose proof (clamped_scale_bounds s2) as [Hmin _].
  set (ns := Qmax MIN (Qmin MAX s2)) in *. clearbody ns.
  assert (Hns : 0 < ns) by (unfold MIN in Hmin; lra).
  split; field; split; lra.
Qed.

(** Zooming to 4x about (300, 200) from scale 2, translate (100, 50). *)
Lemma zoom_anchor_invariant_scenario :
  (300 - tx (zoomAtPoint 4 300 200 {| scale := 2; tx := 100; ty := 50; fitScale := 1 |}))
    / scale (zoomAtPoint 4 300 200 {| scale := 2; tx := 100; ty := 50; fitScale := 1 |})
    == 100 /\
  (200 - ty (zoomAtPoint 4 300 200 {| scale := 2; tx := 100; ty := 50; fitScale := 1 |}))
    / scale (zoomAtPoint 4 300 200 {| scale := 2; tx := 100; ty := 50; fitScale := 1 |})
    == 75.
Proof.
  destruct (zoom_anchor_invariant 4 300 200
              {| scale := 2; tx := 100; ty := 50; fitScale := 1 |}) as [Hx Hy].
  - reflexivity.
  - split; [rewrite Hx | rewrite Hy]; reflexivity.
Defined.

(** C7: whatever scale is requested, the scale [zoomAtPoint] stores is
    between 0.05 and 10. *)
Theorem zoom_scale_bounds (newScale vpX vpY : Q) (zoom : State) :
  (5 # 100) <= scale (zoomAtPoint newScale vpX vpY zoom) <= 10.
Proof. rewrite zoomAtPoint_scale. apply clamped_scale_bounds. Qed.

(** [zoomBy], the wheel and the buttons go through [zoomAtPoint]. *)
Lemma zoomBy_scale_bounds (vp : Viewport) (factor : Q) (zoom : State) :
  (5 # 100) <= scale (zoomBy vp factor zoom) <= 10.
Proof. apply clamped_scale_bounds. Qed.

(** C8: for an image with positive natural width and height, [zoomFit]
    sets fitScale to min(clientWidth / naturalWidth,
    clientHeight / naturalHeight, 1), which is at most 1, sets scale to
    fitScale and centres the scaled image:
    tx = (clientWidth - naturalWidth * scale) / 2,
    ty = (clientHeight - naturalHeight * scale) / 2. *)
Theorem fit_scales_and_centres (vp : Viewport) (img : Img) (zoom : State) :
  (0 < naturalWidth img)%N -> (0 < naturalHeight img)%N ->
  fitScale (zoomFit vp img zoom)
    = JS.min3 (inject_Z (clientWidth vp) / ofN (naturalWidth img))
              (inject_Z (clientHeight vp) / ofN (naturalHeight img)) 1 /\
  fitScale (zoomFit vp img zoom) <= 1 /\
  scale (zoomFit vp img zoom) = fitScale (zoomFit vp img zoom) /\
  tx (zoomFit vp img zoom)
    = (inject_Z (clientWidth vp)
       - ofN (naturalWidth img) * scale (zoomFit vp img zoom)) / 2 /\
  ty (zoomFit vp img zoom)
    = (inject_Z (clientHeight vp)
       - ofN (naturalHeight img) * scale (zoomFit vp img zoom)) / 2.
Proof.
  intros Hw _. unfold zoomFit.
  destruct (N.eqb_spec (naturalWidth img) 0) as [E|_]; [lia|].
  cbn [fitScale scale tx ty]. repeat split. apply Q.le_min_r.
Qed.

(** The end-to-end scenario: an 800 x 600 viewport and a 400 x 300 image
    give scale 1, tx 200 and ty 150. *)
Lemma fit_scales_and_centres_scenario :
  scale (zoomFit {| clientWidth := 800; clientHeight := 600 |}
           {| naturalWidth := 400; naturalHeight := 300 |} initial) == 1 /\
  tx (zoomFit {| clientWidth := 800; clientHeight := 600 |}
        {| naturalWidth := 400; naturalHeight := 300 |} initial) == 200 /\
  ty (zoomFit {| clientWidth := 800; clientHeight := 600 |}
        {| naturalWidth := 400; naturalHeight := 300 |} initial) == 150.
Proof.
  destruct (fit_scales_and_centres {| clientWidth := 800; clientHeight := 600 |}
              {| naturalWidth := 400; naturalHeight := 300 |} initial)
    as (Hfit & _ & Hs & Hx & Hy).
  - reflexivity.
  - reflexivity.
  - rewrite Hx, Hy, Hs, Hfit. vm_compute. repeat split; reflexivity.
Defined.

(** Fitting twice changes nothing more. *)
Lemma zoomFit_idempotent (vp : Viewport) (img : Img) (zoom : State) :
  zoomFit vp img (zoomFit vp img zoom) = zoomFit vp img zoom.
Proof.
  unfold zoomFit. now destruct (naturalWidth img =? 0)%N eqn:E; rewrite ?E.
Qed.

(** C9: when the image has natural width 0, [zoomFit] returns the
    transform as it was: scale, fitScale, tx and ty are all unchanged. *)
Theorem fit_without_image (vp : Viewport) (img : Img) (zoom : State) :
  naturalWidth img = 0%N -> zoomFit vp img zoom = zoom.
Proof. intros H. unfold zoomFit. now rewrite H. Qed.

(** An image element that has not loaded anything yet, after some zooming. *)
Lemma fit_without_image_scenario :
  zoomFit {| clientWidth := 800; clientHeight := 600 |}
    {| naturalWidth := 0; naturalHeight := 0 |}
    {| scale := 3; tx := -40; ty := 25; fitScale := 1 # 2 |}
  = {| scale := 3; tx := -40; ty := 25; fitScale := 1 # 2 |}.
Proof.
  apply (fit_without_image {| clientWidth := 800; clientHeight := 600 |}
           {| naturalWidth := 0; naturalHeight := 0 |}).
  reflexivity.
Defined.

(** *** Dragging *)

Lemma onMouseMove_dragging (e : MouseEvent) (st : Interaction) (d : Drag) :
  drag st = Some d ->
  onMouseMove e st
  = {| zoom := {| tx := tx0 d + (clientX e - startX d);
                  ty := ty0 d + (clientY e - startY d);
                  scale := scale (zoom st);
                  fitScale := fitScale (zoom st) |};
       drag := Some d |}.
Proof. intros H. unfold onMouseMove. now rewrite H. Qed.

(** While the button is down, [drag] keeps the start of the gesture and
    the engine keeps its scale. *)
Lemma dragBy_state (down : MouseEvent) (moves : list MouseEvent) (st : Interaction) :
  button down = 0%Z ->
  drag (dragBy down moves st)
    = Some {| startX := clientX down; startY := clientY down;
              tx0 := tx (zoom st); ty0 := ty (zoom st) |} /\
  scale (zoom (dragBy down moves st)) = scale (zoom st) /\
  fitScale (zoom (dragBy down moves st)) = fitScale (zoom st).
Proof.
  intros Hb. unfold dragBy.
  induction moves as [|e moves IH] using rev_ind.
  - cbn [fold_left]. unfold onMouseDown. rewrite Hb. cbn. repeat split.
  - rewrite fold_left_app. cbn [fold_left].
    destruct IH as (Hd & Hs & Hf). rewrite (onMouseMove_dragging _ _ _ Hd).
    cbn [drag zoom scale fitScale]. repeat split; assumption.
Qed.

(** C10: in a drag that started with the left button at [down], every
    pointer move [e] -- whatever moves came before it -- sets tx and ty
    to the translation at the start of the drag plus the distance of the
    pointer from [down], unclamped, and leaves scale and fitScale as they
    were. *)
Theorem pan_moves_translation_only
  (down : MouseEvent) (moves : list MouseEvent) (e : MouseEvent) (st : Interaction) :
  button down = 0%Z ->
  tx (zoom (onMouseMove e (dragBy down moves st)))
    = tx (zoom st) + (clientX e - clientX down) /\
  ty (zoom (onMouseMove e (dragBy down moves st)))
    = ty (zoom st) + (clientY e - clientY down) /\
  scale (zoom (onMouseMove e (dragBy down moves st))) = scale (zoom st) /\
  fitScale (zoom (onMouseMove e (dragBy down moves st))) = fitScale (zoom st).
Proof.
  intros Hb. destruct (dragBy_state down moves st Hb) as (Hd & Hs & Hf).
  rewrite (onMouseMove_dragging _ _ _ Hd). cbn. repeat split; assumption.
Qed.

(** Without a drag in progress a pointer move changes nothing. *)
Lemma move_without_drag (e : MouseEvent) (st : Interaction) :
  drag st = None -> onMouseMove e st = st.
Proof. intros H. unfold onMouseMove. now rewrite H. Qed.

(** A drag from (100, 100) over (130, 90) to (5000, -7000): the
    translation follows the pointer without a bound. *)
Lemma pan_moves_translation_only_scenario :
  tx (zoom (onMouseMove
              {| button := 0; clientX := 5000; clientY := -7000; deltaY := 0 |}
              (dragBy {| button := 0; clientX := 100; clientY := 100; deltaY := 0 |}
                 [{| button := 0; clientX := 130; clientY := 90; deltaY := 0 |}]
                 {| zoom := {| scale := 2; tx := 10; ty := 20; fitScale := 1 # 2 |};
                    drag := None |})))
    == 4910 /\
  ty (zoom (onMouseMove
              {| button := 0; clientX := 5000; clientY := -7000; deltaY := 0 |}
              (dragBy {| button := 0; clientX := 100; clientY := 100; deltaY := 0 |}
                 [{| button := 0; clientX := 130; clientY := 90; deltaY := 0 |}]
                 {| zoom := {| scale := 2; tx := 10; ty := 20; fitScale := 1 # 2 |};
                    drag := None |})))
    == -7080.
Proof.
  destruct (pan_moves_translation_only
              {| button := 0; clientX := 100; clientY := 100; deltaY := 0 |}
              [{| button := 0; clientX := 130; clientY := 90; deltaY := 0 |}]
              {| button := 0; clientX := 5000; clientY := -7000; deltaY := 0 |}
              {| zoom := {| scale := 2; tx := 10; ty := 20; fitScale := 1 # 2 |};
                 drag := None |}) as (Hx & Hy & _).
  - reflexivity.
  - rewrite Hx, Hy. split; reflexivity.
Defined.

End ZoomEngine.

(** ** handleCapture *)

Section CapturePipeline.

Import JS Capture.

Lemma callsOf_app (tid : nat) (s s' : App) (log : list (nat * Call)) :
  calls s' = calls s ++ log ->
  callsOf tid s' = callsOf tid s ++ map snd (List.filter (fun c => Nat.eqb (fst c) tid) log).
Proof.
  intros H. unfold callsOf. now rewrite H, List.filter_app, map_app.
Qed.

Lemma callsOf_same (tid : nat) (s s' : App) :
  calls s' = calls s -> callsOf tid s' = callsOf tid s.
Proof. intros H. unfold callsOf. now rewrite H. Qed.

Lemma filter_by_other (tid tid' : nat) (cs : list Call) :
  tid' <> tid ->
  List.filter (fun c : nat * Call => Nat.eqb (fst c) tid) (map (pair tid') cs) = [].
Proof.
  intros Hne. induction cs as [|c cs IH]; [reflexivity|].
  cbn. now rewrite (proj2 (Nat.eqb_neq _ _) Hne).
Qed.

Lemma callsOf_other (tid tid' : nat) (s s' : App) (cs : list Call) :
  tid' <> tid ->
  calls s' = calls s ++ map (pair tid') cs ->
  callsOf tid s' = callsOf tid s.
Proof.
  intros Hne H. rewrite (callsOf_app tid s s' _ H), filter_by_other by exact Hne.
  apply app_nil_r.
Qed.

(** [throw] ends the invocation and calls nothing. *)
Lemma throw_effect (tid : nat) (err : Failure) (s : App) :
  tasks (throw tid err s) = <[tid := Returned]> (tasks s) /\
  calls (throw tid err s) = calls s /\
  sizeHint (panel (throw tid err s)) = HintFailed (message err).
Proof. repeat split. Qed.

Lemma throw_Effect (tid : nat) (t : Task) (err : Failure) (s : App) :
  tasks s !! tid = Some t -> t <> Returned -> Effect s (throw tid err s).
Proof.
  intros Ht Hne. apply (Resumed s _ tid t Returned []); try assumption.
  - discriminate.
  - reflexivity.
  - cbn. now rewrite app_nil_r.
Qed.

(** Each event has one of the three effects. *)
Lemma step_Effect (s : App) (e : Event) : Effect s (step s e).
Proof.
  destruct e as [index| |  |tid r|tid r|tid| ]; cbn [step].
  - unfold openModal. destruct (hasIframe s index); now apply Silent.
  - now apply Silent.
  - unfold handleCapture. destruct (_ || _); [now apply Silent|].
    now apply (Started s _ (currentTabId s) (activeModalIndex s)).
  - destruct (tasks s !! tid) as [[index| | | | ]|] eqn:Ht; try now apply Silent.
    unfold afterScript. destruct r as [[rect|]|msg];
      try (apply (throw_Effect tid _ _ s Ht); discriminate).
    destruct (_ || _); [apply (throw_Effect tid _ _ s Ht); discriminate|].
    apply (Resumed s _ tid _ (AwaitCaptureTab rect)
             [SendCaptureTab (currentTabId s) (currentWindowId s)] Ht);
      try discriminate; reflexivity.
  - destruct (tasks s !! tid) as [[ |rect| | | ]|] eqn:Ht; try now apply Silent.
    unfold afterCaptureTab. destruct r as [result|msg];
      [|apply (throw_Effect tid _ _ s Ht); discriminate].
    destruct (truthy _); [apply (throw_Effect tid _ _ s Ht); discriminate|].
    destruct (result ≫= dataUrl) as [d|];
      [|apply (throw_Effect tid _ _ s Ht); discriminate].
    apply (Resumed s _ tid _ (AwaitCrop d rect) [CropImage] Ht);
      try discriminate; reflexivity.
  - destruct (tasks s !! tid) as [[ | |d rect| | ]|] eqn:Ht; try now apply Silent.
    unfold afterCrop. destruct (Cropper.cropImage d rect) as [err|url];
      [apply (throw_Effect tid _ _ s Ht); discriminate|].
    apply (Resumed s _ tid _ (AwaitImgLoad url) [] Ht); try discriminate.
    + reflexivity.
    + cbn. now rewrite app_nil_r.
  - unfold imgLoad. destruct (src (img s)) as [[im|]|]; try now apply Silent.
    destruct (pending (img s)); [|now apply Silent].
    destruct (onload (img s)) as [tid|]; [|now apply Silent].
    destruct (tasks s !! tid) as [[ | | |url| ]|] eqn:Ht; try now apply Silent.
    apply (Resumed s _ tid _ Returned [] Ht); try discriminate.
    + reflexivity.
    + cbn. now rewrite app_nil_r.
Qed.

(** An invocation that has returned stays returned and calls nothing. *)
Lemma returned_is_final (s s' : App) (tid : nat) :
  Effect s s' ->
  tasks s !! tid = Some Returned ->
  tasks s' !! tid = Some Returned /\ callsOf tid s' = callsOf tid s.
Proof.
  intros [Ht Hc|tab index Ht Hc|tid' t t' cs Hl Hne _ Ht Hc] Hret.
  - rewrite Ht. split; [assumption|]. now apply callsOf_same.
  - rewrite Ht. split; [now apply lookup_app_l_Some|].
    apply (callsOf_other tid (length (tasks s)) s s' [ExecuteScript tab index]);
      [|exact Hc].
    apply lookup_lt_Some in Hret. lia.
  - assert (Hd : tid' <> tid) by congruence.
    rewrite Ht. split; [now rewrite list_lookup_insert_ne|].
    now apply (callsOf_other tid tid' s s' cs).
Qed.

Lemma returned_stays (events : list Event) (s : App) (tid : nat) :
  tasks s !! tid = Some Returned ->
  tasks (run s events) !! tid = Some Returned /\
  callsOf tid (run s events) = callsOf tid s.
Proof.
  revert s. induction events as [|e events IH]; intros s Hret; [now split|].
  cbn [run fold_left].
  destruct (returned_is_final s (step s e) tid (step_Effect s e) Hret) as [Hret' Hc].
  destruct (IH (step s e) Hret') as [H1 H2].
  split; [exact H1|]. unfold run in H2. now rewrite H2.
Qed.

Lemma invariants_step (s s' : App) :
  Effect s s' ->
  callers_exist s /\ script_call_only s ->
  callers_exist s' /\ script_call_only s'.
Proof.
  intros [Ht Hc|tab index Ht Hc|tid' t t' cs Hl Hne Hns Ht Hc] [Hfresh Hscript].
  - split.
    + intros tid Hge. rewrite (callsOf_same tid s s' Hc). apply Hfresh. now rewrite <- Ht.
    + intros tid index Hl. rewrite (callsOf_same tid s s' Hc). apply Hscript.
      now rewrite <- Ht.
  - split.
    + intros tid Hge. rewrite Ht, length_app in Hge. cbn in Hge.
      rewrite (callsOf_other tid (length (tasks s)) s s' [ExecuteScript tab index]);
        [apply Hfresh; lia | lia | exact Hc].
    + intros tid index' Hl. rewrite Ht in Hl.
      destruct (decide (tid < length (tasks s))%nat) as [Hlt|Hge].
      * rewrite lookup_app_l in Hl by exact Hlt.
        rewrite (callsOf_other tid (length (tasks s)) s s' [ExecuteScript tab index]);
          [now apply Hscript | lia | exact Hc].
      * rewrite lookup_app_r in Hl by lia.
        destruct (tid - length (tasks s))%nat as [|k] eqn:Ek; [|now destruct k].
        injection Hl as <-. assert (tid = length (tasks s)) as -> by lia.
        exists tab. rewrite (callsOf_app _ s s' _ Hc), Hfresh by lia.
        cbn. now rewrite Nat.eqb_refl.
  - apply lookup_lt_Some in Hl as Hlt. split.
    + intros tid Hge. rewrite Ht, length_insert in Hge.
      rewrite (callsOf_other tid tid' s s' cs); [apply Hfresh; lia | lia | exact Hc].
    + intros tid index Hl'. rewrite Ht in Hl'.
      destruct (decide (tid' = tid)) as [->|Hd].
      * rewrite list_lookup_insert_eq in Hl' by exact Hlt.
        injection Hl' as ->. now destruct (Hns index).
      * rewrite list_lookup_insert_ne in Hl' by exact Hd.
        rewrite (callsOf_other tid tid' s s' cs); [now apply Hscript | exact Hd | exact Hc].
Qed.

Lemma invariants_run (events : list Event) (s : App) :
  callers_exist s /\ script_call_only s ->
  callers_exist (run s events) /\ script_call_only (run s events).
Proof.
  revert s. induction events as [|e events IH]; intros s H; [exact H|].
  cbn [run fold_left]. apply IH, (invariants_step s), H. apply step_Effect.
Qed.

Lemma invariants_start (s : App) :
  tasks s = [] -> calls s = [] -> callers_exist s /\ script_call_only s.
Proof.
  intros Ht Hc. split.
  - intros tid _. unfold callsOf. now rewrite Hc.
  - intros tid index Hl. now rewrite Ht in Hl.
Qed.

Lemma run_app (s : App) (l1 l2 : list Event) : run s (l1 ++ l2) = run (run s l1) l2.
Proof. apply fold_left_app. Qed.

(** The step of an invocation whose rect has no visible size. *)
Lemma zero_size_step (s : App) (tid : nat) (index : Z) (rect : Rect.ViewportRect) :
  tasks s !! tid = Some (AwaitScript index) ->
  (Rect.width rect <= 0 \/ Rect.height rect <= 0)%Q ->
  step s (ScriptSettled tid (Fulfilled (Some rect))) = throw tid ZeroSize s.
Proof.
  intros Ht Hz. cbn [step]. rewrite Ht. unfold afterScript.
  replace (Qle_bool (Rect.width rect) 0 || Qle_bool (Rect.height rect) 0)
    with true; [reflexivity|].
  symmetry. apply orb_true_iff. now rewrite !Qle_bool_iff.
Qed.

(** C5: in any run of the popup, when the page resolves the rect of an
    invocation with width <= 0 or height <= 0, that step publishes the
    zero-size failure, ends the invocation and calls no collaborator;
    whatever happens afterwards, the only call the invocation ever made is
    its [executeScript]: neither the capture of the tab nor the crop runs
    for it. *)
Theorem zero_size_fails_before_capture
  (s0 : App) (before after : list Event) (tid : nat) (index : Z)
  (rect : Rect.ViewportRect) :
  tasks s0 = [] -> calls s0 = [] ->
  tasks (run s0 before) !! tid = Some (AwaitScript index) ->
  (Rect.width rect <= 0 \/ Rect.height rect <= 0)%Q ->
  sizeHint (panel (run s0 (before ++ [ScriptSettled tid (Fulfilled (Some rect))])))
    = HintFailed (message ZeroSize) /\
  tasks (run s0 (before ++ [ScriptSettled tid (Fulfilled (Some rect))])) !! tid
    = Some Returned /\
  calls (run s0 (before ++ [ScriptSettled tid (Fulfilled (Some rect))]))
    = calls (run s0 before) /\
  exists tab,
    callsOf tid (run s0 (before ++ ScriptSettled tid (Fulfilled (Some rect)) :: after))
      = [ExecuteScript tab index].
Proof.
  intros Ht0 Hc0 Ht Hz.
  destruct (invariants_run before s0 (invariants_start s0 Ht0 Hc0)) as [_ Hscript].
  destruct (Hscript tid index Ht) as [tab Hcalls].
  change (before ++ ScriptSettled tid (Fulfilled (Some rect)) :: after)
    with (before ++ [ScriptSettled tid (Fulfilled (Some rect))] ++ after).
  rewrite app_assoc, (run_app s0 (before ++ _) after), run_app.
  set (s := run s0 before) in *. cbn [run fold_left].
  rewrite (zero_size_step s tid index rect Ht Hz).
  destruct (throw_effect tid ZeroSize s) as (Htasks & Hcalls' & Hhint).
  assert (Hret : tasks (throw tid ZeroSize s) !! tid = Some Returned).
  { rewrite Htasks. apply list_lookup_insert_eq. now apply lookup_lt_Some in Ht. }
  repeat split; try assumption.
  exists tab. destruct (returned_stays after _ tid Hret) as [_ ->].
  now rewrite (callsOf_same tid s _ Hcalls').
Qed.

(** The modal of iframe 0 is open, [handleCapture] has run, and the page
    reports [Scenario.emptyTarget]; the late answers meant for the
    invocation change nothing. *)
Lemma zero_size_fails_before_capture_scenario :
  sizeHint (panel (run Scenario.popup
                     ([OpenModal 0; HandleCapture]
                      ++ [ScriptSettled 0 (Fulfilled (Some Scenario.emptyTarget))])))
    = HintFailed (message ZeroSize) /\
  tasks (run Scenario.popup
           ([OpenModal 0; HandleCapture]
            ++ [ScriptSettled 0 (Fulfilled (Some Scenario.emptyTarget))])) !! 0%nat
    = Some Returned /\
  calls (run Scenario.popup
           ([OpenModal 0; HandleCapture]
            ++ [ScriptSettled 0 (Fulfilled (Some Scenario.emptyTarget))]))
    = calls (run Scenario.popup [OpenModal 0; HandleCapture]) /\
  exists tab,
    callsOf 0 (run Scenario.popup
                 ([OpenModal 0; HandleCapture]
                  ++ ScriptSettled 0 (Fulfilled (Some Scenario.emptyTarget))
                  :: Scenario.restOfA))
      = [ExecuteScript tab 0].
Proof.
  apply (zero_size_fails_before_capture Scenario.popup [OpenModal 0; HandleCapture]
           Scenario.restOfA 0 0 Scenario.emptyTarget).
  - reflexivity.
  - reflexivity.
  - reflexivity.
  - left. vm_compute. congruence.
Defined.

(** *** Overlapping invocations *)

(** The step of an invocation whose crop succeeded. *)
Lemma crop_settled_step (s : App) (tid : nat) (d url : Raster.DataUrl)
  (rect : Rect.ViewportRect) :
  tasks s !! tid = Some (AwaitCrop d rect) ->
  Cropper.cropImage d rect = inr url ->
  lastSnapshotUrl (step s (CropSettled tid)) = Some url /\
  src (img (step s (CropSettled tid))) = Some url /\
  onload (img (step s (CropSettled tid))) = Some tid /\
  tasks (step s (CropSettled tid)) = <[tid := AwaitImgLoad url]> (tasks s).
Proof.
  intros Ht Hc. cbn [step]. rewrite Ht. unfold afterCrop. rewrite Hc. repeat split.
Qed.

(** [handleCapture] compares no request token when it resumes.  When
    two invocations a and b are both waiting for their crop, the
    snapshot that ends up published ([lastSnapshotUrl] and the source of
    the image element) is the result of the one whose crop settles last,
    whichever of the two was started first. *)
Theorem last_settled_crop_is_published
  (s : App) (a b : nat) (da db ua ub : Raster.DataUrl) (ra rb : Rect.ViewportRect) :
  a <> b ->
  tasks s !! a = Some (AwaitCrop da ra) ->
  tasks s !! b = Some (AwaitCrop db rb) ->
  Cropper.cropImage da ra = inr ua ->
  Cropper.cropImage db rb = inr ub ->
  (lastSnapshotUrl (run s [CropSettled b; CropSettled a]) = Some ua /\
   src (img (run s [CropSettled b; CropSettled a])) = Some ua) /\
  (lastSnapshotUrl (run s [CropSettled a; CropSettled b]) = Some ub /\
   src (img (run s [CropSettled a; CropSettled b])) = Some ub).
Proof.
  intros Hne Ha Hb Hca Hcb. cbn [run fold_left]. split.
  - destruct (crop_settled_step s b db ub rb Hb Hcb) as (_ & _ & _ & Ht).
    destruct (crop_settled_step (step s (CropSettled b)) a da ua ra) as (H1 & H2 & _);
      [|exact Hca|now split].
    rewrite Ht, list_lookup_insert_ne by congruence. exact Ha.
  - destruct (crop_settled_step s a da ua ra Ha Hca) as (_ & _ & _ & Ht).
    destruct (crop_settled_step (step s (CropSettled a)) b db ub rb) as (H1 & H2 & _);
      [|exact Hcb|now split].
    rewrite Ht, list_lookup_insert_ne by congruence. exact Hb.
Qed.

(** [Scenario.bothCropping]: A's crop settling after B's publishes A's
    image, B's settling after A's publishes B's. *)
Lemma last_settled_crop_is_published_scenario :
  (lastSnapshotUrl (run (run Scenario.popup Scenario.bothCropping)
                      [CropSettled 1%nat; CropSettled 0%nat])
     = Some (Raster.Png Scenario.croppedA) /\
   src (img (run (run Scenario.popup Scenario.bothCropping)
               [CropSettled 1%nat; CropSettled 0%nat]))
     = Some (Raster.Png Scenario.croppedA)) /\
  (lastSnapshotUrl (run (run Scenario.popup Scenario.bothCropping)
                      [CropSettled 0%nat; CropSettled 1%nat])
     = Some (Raster.Png Scenario.croppedB) /\
   src (img (run (run Scenario.popup Scenario.bothCropping)
               [CropSettled 0%nat; CropSettled 1%nat]))
     = Some (Raster.Png Scenario.croppedB)).
Proof.
  apply (last_settled_crop_is_published (run Scenario.popup Scenario.bothCropping)
           0 1 (Raster.Png Scenario.shotA) (Raster.Png Scenario.shotB)
           (Raster.Png Scenario.croppedA) (Raster.Png Scenario.croppedB)
           Scenario.rectA Scenario.rectB).
  - discriminate.
  - reflexivity.
  - reflexivity.
  - reflexivity.
  - reflexivity.
Defined.

(** C4 (code bug): only the outcome of the capture started last may be
    published, and the code breaks this.  capture(A) is issued, then
    capture(B) before A resolves -- the modal is closed and opened for B,
    and the timer of [openModalAndCapture] calls [handleCapture] without
    looking at the disabled button.  When B has run to its end, B's
    3 x 3 image is published and A is still waiting for the capture of
    the tab.  A's remaining work then completes: the modal of B now
    shows A's 2 x 2 image, and [lastSnapshotUrl], which
    [handleSaveSnapshot] saves, is A's. *)
Lemma superseded_capture_is_published :
  (Cropper.cropImage (Raster.Png Scenario.shotA) Scenario.rectA
     = inr (Raster.Png Scenario.croppedA) /\
   Cropper.cropImage (Raster.Png Scenario.shotB) Scenario.rectB
     = inr (Raster.Png Scenario.croppedB)) /\
  (tasks (run Scenario.popup (Scenario.captureA ++ Scenario.captureB))
     = [AwaitCaptureTab Scenario.rectA; Returned] /\
   lastSnapshotUrl (run Scenario.popup (Scenario.captureA ++ Scenario.captureB))
     = Some (Raster.Png Scenario.croppedB) /\
   sizeHint (panel (run Scenario.popup (Scenario.captureA ++ Scenario.captureB)))
     = HintSize 3 3) /\
  (activeModalIndex
     (run Scenario.popup (Scenario.captureA ++ Scenario.captureB ++ Scenario.restOfA))
     = 1 /\
   tasks (run Scenario.popup (Scenario.captureA ++ Scenario.captureB ++ Scenario.restOfA))
     = [Returned; Returned] /\
   lastSnapshotUrl
     (run Scenario.popup (Scenario.captureA ++ Scenario.captureB ++ Scenario.restOfA))
     = Some (Raster.Png Scenario.croppedA) /\
   src (img (run Scenario.popup
               (Scenario.captureA ++ Scenario.captureB ++ Scenario.restOfA)))
     = Some (Raster.Png Scenario.croppedA) /\
   sizeHint (panel (run Scenario.popup
                      (Scenario.captureA ++ Scenario.captureB ++ Scenario.restOfA)))
     = HintSize 2 2) /\
  Raster.Png Scenario.croppedA <> Raster.Png Scenario.croppedB.
Proof.
  split; [split|split; [repeat split|split; [repeat split|]]]; try reflexivity.
  intros H. discriminate H.
Qed.

End CapturePipeline.

(** * Further properties *)

(** ** The resolver and the cropper together *)

Section ResolveAndCrop.

Import Geometry.

Lemma round_mono (u v : Q) : (u <= v)%Q -> JS.round u <= JS.round v.
Proof. intros H. unfold JS.round. apply Qfloor_resp_le. lra. Qed.

Lemma round_comp (u v : Q) : (u == v)%Q -> JS.round u = JS.round v.
Proof. intros H. unfold JS.round. now rewrite H. Qed.

Lemma round_nonneg (v : Q) : (0 <= v)%Q -> 0 <= JS.round v.
Proof. intros H. apply round_nonneg_iff. lra. Qed.

(** The edges of a box with non-negative width and height. *)
Lemma box_edges (box : DOMRect.t) :
  (0 <= DOMRect.width box)%Q -> (0 <= DOMRect.height box)%Q ->
  (DOMRect.left box == DOMRect.x box)%Q /\
  (DOMRect.right box == DOMRect.x box + DOMRect.width box)%Q /\
  (DOMRect.top box == DOMRect.y box)%Q /\
  (DOMRect.bottom box == DOMRect.y box + DOMRect.height box)%Q.
Proof.
  intros Hw Hh. unfold DOMRect.left, DOMRect.right, DOMRect.top, DOMRect.bottom.
  repeat split; [apply Q.min_l | apply Q.max_r | apply Q.min_l | apply Q.max_r]; lra.
Qed.

(** X1: The resolver finds no target exactly when the ordinal is outside the
    iframes of the page. *)
Theorem resolver_null_iff_no_target (page : Page) (index : Z) :
  scrollAndGetRect page index = None <->
  index < 0 \/ Z.of_nat (length (iframes page)) <= index.
Proof.
  unfold scrollAndGetRect, item. destruct (Z.ltb_spec index 0) as [Hneg|Hpos].
  - split; [now left | reflexivity].
  - destruct (iframes page !! Z.to_nat index) as [box|] eqn:E.
    + apply lookup_lt_Some in E. split; [discriminate | lia].
    + apply lookup_ge_None in E. split; [lia | reflexivity].
Qed.

(** X2: For a target whose box has non-negative width and height, the
    reported origin is inside the viewport's first quadrant and the
    visible size is at most the full size. *)
Theorem visible_part_within_full (page : Page) (index : Z) (v : Rect.ViewportRect)
  (box : DOMRect.t) :
  item page index = Some box ->
  scrollAndGetRect page index = Some v ->
  (0 <= DOMRect.width box)%Q -> (0 <= DOMRect.height box)%Q ->
  (0 <= Rect.x v)%Q /\ (0 <= Rect.y v)%Q /\
  (Rect.width v <= Rect.fullWidth v)%Q /\ (Rect.height v <= Rect.fullHeight v)%Q.
Proof.
  intros Hitem Hv Hw Hh. unfold scrollAndGetRect in Hv. rewrite Hitem in Hv.
  injection Hv as <-. cbn [visibleRect Rect.x Rect.y Rect.width Rect.height
                            Rect.fullWidth Rect.fullHeight].
  destruct (box_edges box Hw Hh) as (Hl & Hr & Ht & Hb).
  pose proof (Q.le_max_r (DOMRect.left box) 0) as Hx0.
  pose proof (Q.le_max_l (DOMRect.left box) 0) as Hx1.
  pose proof (Q.le_max_r (DOMRect.top box) 0) as Hy0.
  pose proof (Q.le_max_l (DOMRect.top box) 0) as Hy1.
  pose proof (Q.le_min_l (DOMRect.right box) (innerWidth page)) as Hr1.
  pose proof (Q.le_min_l (DOMRect.bottom box) (innerHeight page)) as Hb1.
  repeat split; try assumption; rewrite <- Zle_Qle; apply round_mono; lra.
Qed.

(** [Scenario.clippedPage]: 100 of the 300 CSS pixels are visible. *)
Lemma visible_part_within_full_scenario :
  (0 <= Rect.x (visibleRect Scenario.clippedBox Scenario.clippedPage))%Q /\
  (0 <= Rect.y (visibleRect Scenario.clippedBox Scenario.clippedPage))%Q /\
  (Rect.width (visibleRect Scenario.clippedBox Scenario.clippedPage)
     <= Rect.fullWidth (visibleRect Scenario.clippedBox Scenario.clippedPage))%Q /\
  (Rect.height (visibleRect Scenario.clippedBox Scenario.clippedPage)
     <= Rect.fullHeight (visibleRect Scenario.clippedBox Scenario.clippedPage))%Q.
Proof.
  apply (visible_part_within_full Scenario.clippedPage 0 _ Scenario.clippedBox).
  - reflexivity.
  - reflexivity.
  - vm_compute. congruence.
  - vm_compute. congruence.
Defined.

(** X3: A target that [collectIframes] would flag as in the viewport is
    reported whole: the origin is the box's and the visible size is the
    full size. *)
Theorem target_in_viewport_reported_whole (page : Page) (box : DOMRect.t) :
  (0 <= DOMRect.width box)%Q -> (0 <= DOMRect.height box)%Q ->
  Scan.insideViewport box (innerWidth page) (innerHeight page) = true ->
  (Rect.x (visibleRect box page) == DOMRect.x box)%Q /\
  (Rect.y (visibleRect box page) == DOMRect.y box)%Q /\
  Rect.width (visibleRect box page) = Rect.fullWidth (visibleRect box page) /\
  Rect.height (visibleRect box page) = Rect.fullHeight (visibleRect box page).
Proof.
  intros Hw Hh Hin. unfold Scan.insideViewport in Hin.
  apply andb_true_iff in Hin as [Hin Hr]. apply andb_true_iff in Hin as [Hin Hb].
  apply andb_true_iff in Hin as [Ht Hl].
  apply Qle_bool_iff in Ht, Hl, Hb, Hr.
  destruct (box_edges box Hw Hh) as (El & Er & Et & Eb).
  cbn [visibleRect Rect.x Rect.y Rect.width Rect.height Rect.fullWidth Rect.fullHeight].
  assert (Ex : (Qmax (DOMRect.left box) 0 == DOMRect.x box)%Q)
    by (rewrite Q.max_l by exact Hl; exact El).
  assert (Ey : (Qmax (DOMRect.top box) 0 == DOMRect.y box)%Q)
    by (rewrite Q.max_l by exact Ht; exact Et).
  assert (Exr : (Qmin (DOMRect.right box) (innerWidth page)
                 == DOMRect.x box + DOMRect.width box)%Q)
    by (rewrite Q.min_l by exact Hr; exact Er).
  assert (Eyb : (Qmin (DOMRect.bottom box) (innerHeight page)
                 == DOMRect.y box + DOMRect.height box)%Q)
    by (rewrite Q.min_l by exact Hb; exact Eb).
  repeat split; try assumption; f_equal; apply round_comp; lra.
Qed.

(** A 300 x 200 box at (100, 50) in an 800 x 600 viewport. *)
Lemma target_in_viewport_reported_whole_scenario :
  (Rect.x (visibleRect Inputs.insideBox Inputs.widePage) == 100)%Q /\
  (Rect.y (visibleRect Inputs.insideBox Inputs.widePage) == 50)%Q /\
  Rect.width (visibleRect Inputs.insideBox Inputs.widePage)
    = Rect.fullWidth (visibleRect Inputs.insideBox Inputs.widePage) /\
  Rect.height (visibleRect Inputs.insideBox Inputs.widePage)
    = Rect.fullHeight (visibleRect Inputs.insideBox Inputs.widePage).
Proof.
  apply (target_in_viewport_reported_whole Inputs.widePage Inputs.insideBox).
  - vm_compute. congruence.
  - vm_compute. congruence.
  - reflexivity.
Defined.

Lemma orOne_nonneg (v : Q) : (0 <= v)%Q -> (0 < JS.orOne v)%Q.
Proof.
  intros H. unfold JS.orOne. destruct (Qeq_bool v 0) eqn:E; [reflexivity|].
  apply Qeq_bool_neq in E. lra.
Qed.

Lemma orOne_orOne (v : Q) : JS.orOne (JS.orOne v) = JS.orOne v.
Proof.
  unfold JS.orOne. destruct (Qeq_bool v 0) eqn:E; [reflexivity|]. now rewrite E.
Qed.

Lemma crop_pixels (img out : Raster.Image) (rect : Rect.ViewportRect) (i j : Z) :
  0 <= Cropper.sx rect -> 0 <= Cropper.sy rect ->
  Cropper.cropImage (Raster.Png img) rect = inr (Raster.Png out) ->
  0 <= i < Z.of_N (Raster.width out) -> 0 <= j < Z.of_N (Raster.height out) ->
  Raster.inside img (Cropper.sx rect + i) (Cropper.sy rect + j) = true /\
  Raster.pixel out i j = Raster.pixel img (Cropper.sx rect + i) (Cropper.sy rect + j).
Proof.
  intros Hx Hy Hcrop Hi Hj. cbn [Cropper.cropImage] in Hcrop.
  destruct (crop_cases img rect) as [[_ E]|(Hw & Hh & E)]; rewrite E in Hcrop;
    [discriminate|].
  injection Hcrop as <-. cbn [Raster.drawImage Raster.width Raster.height] in Hi, Hj.
  unfold Cropper.clampedSw, Cropper.clampedSh in *.
  split.
  - unfold Raster.inside. repeat (apply andb_true_iff; split); lia.
  - apply drawImage_pixel; lia.
Qed.

(** X4: When the source offset is not negative, a successful crop -- clamped
    or not -- consists of source pixels only: pixel (i, j) of the result
    is the pixel (sx + i, sy + j) of the capture, which exists. *)
Theorem crop_copies_source_pixels
  (img out : Raster.Image) (rect : Rect.ViewportRect) (i j : Z) :
  0 <= Cropper.sx rect -> 0 <= Cropper.sy rect ->
  Cropper.cropImage (Raster.Png img) rect = inr (Raster.Png out) ->
  0 <= i < Z.of_N (Raster.width out) -> 0 <= j < Z.of_N (Raster.height out) ->
  Raster.inside img (Cropper.sx rect + i) (Cropper.sy rect + j) = true /\
  Raster.pixel out i j = Raster.pixel img (Cropper.sx rect + i) (Cropper.sy rect + j).
Proof. apply crop_pixels. Qed.

(** [Scenario.wideTarget]: the crop is clamped to 200 x 400 and its
    last pixel is the capture's pixel (1599, 499). *)
Lemma crop_copies_source_pixels_scenario :
  Raster.inside Scenario.fullImage (1400 + 199) (100 + 399) = true /\
  Raster.pixel (Raster.drawImage Scenario.fullImage 1400 100 200 400 200 400) 199 399
    = Raster.pixel Scenario.fullImage (1400 + 199) (100 + 399).
Proof.
  apply (crop_copies_source_pixels Scenario.fullImage
           (Raster.drawImage Scenario.fullImage 1400 100 200 400 200 400)
           Scenario.wideTarget 199 399).
  - vm_compute. congruence.
  - vm_compute. congruence.
  - reflexivity.
  - vm_compute. split; congruence.
  - vm_compute. split; congruence.
Defined.

(** X5: A rect the resolver reports, on a page whose device pixel ratio is
    not negative, never has ratio 0 -- the cropper takes it as it is --
    and its raster offset is not negative; so when the crop succeeds,
    every pixel of it is a pixel of the capture. *)
Theorem resolved_rect_crops_source_only
  (page : Page) (index : Z) (v : Rect.ViewportRect) (img out : Raster.Image) :
  scrollAndGetRect page index = Some v ->
  (0 <= devicePixelRatio page)%Q ->
  Cropper.cropImage (Raster.Png img) v = inr (Raster.Png out) ->
  Cropper.dpr v = Rect.devicePixelRatio v /\
  (0 < Cropper.dpr v)%Q /\
  forall i j,
    0 <= i < Z.of_N (Raster.width out) -> 0 <= j < Z.of_N (Raster.height out) ->
    Raster.inside img (Cropper.sx v + i) (Cropper.sy v + j) = true /\
    Raster.pixel out i j = Raster.pixel img (Cropper.sx v + i) (Cropper.sy v + j).
Proof.
  intros Hv Hd Hcrop. unfold scrollAndGetRect in Hv.
  destruct (item page index) as [box|]; [|discriminate]. injection Hv as <-.
  assert (Edpr : Cropper.dpr (visibleRect box page)
                 = Rect.devicePixelRatio (visibleRect box page))
    by apply orOne_orOne.
  assert (Hpos : (0 < Cropper.dpr (visibleRect box page))%Q)
    by (rewrite Edpr; now apply orOne_nonneg).
  split; [exact Edpr|]. split; [exact Hpos|].
  intros i j. apply crop_pixels; [| |exact Hcrop].
  - apply round_nonneg. apply Qmult_le_0_compat; [apply Q.le_max_r | lra].
  - apply round_nonneg. apply Qmult_le_0_compat; [apply Q.le_max_r | lra].
Qed.

(** [Inputs.widePage] captured at 1600 x 1200: the crop is the 600 x 400
    block at (200, 100). *)
Lemma resolved_rect_crops_source_only_scenario :
  Cropper.dpr (visibleRect Inputs.insideBox Inputs.widePage)
    = Rect.devicePixelRatio (visibleRect Inputs.insideBox Inputs.widePage) /\
  (0 < Cropper.dpr (visibleRect Inputs.insideBox Inputs.widePage))%Q /\
  forall i j,
    0 <= i < Z.of_N (Raster.width
                       (Raster.drawImage Scenario.fullImage 200 100 600 400 600 400)) ->
    0 <= j < Z.of_N (Raster.height
                       (Raster.drawImage Scenario.fullImage 200 100 600 400 600 400)) ->
    Raster.inside Scenario.fullImage
      (Cropper.sx (visibleRect Inputs.insideBox Inputs.widePage) + i)
      (Cropper.sy (visibleRect Inputs.insideBox Inputs.widePage) + j) = true /\
    Raster.pixel (Raster.drawImage Scenario.fullImage 200 100 600 400 600 400) i j
      = Raster.pixel Scenario.fullImage
          (Cropper.sx (visibleRect Inputs.insideBox Inputs.widePage) + i)
          (Cropper.sy (visibleRect Inputs.insideBox Inputs.widePage) + j).
Proof.
  apply (resolved_rect_crops_source_only Inputs.widePage 0 _ Scenario.fullImage).
  - reflexivity.
  - vm_compute. congruence.
  - reflexivity.
Defined.

End ResolveAndCrop.

(** ** More on the zoom engine *)

Section ZoomComposition.

Import Zoom.

Local Open Scope Q_scope.

(** The clamp of [zoomAtPoint] moves a scale of the range towards the
    requested one and never past it. *)
Lemma clamp_direction (s r : Q) :
  MIN <= s -> s <= MAX ->
  (s <= r -> s <= Qmax MIN (Qmin MAX r) <= MAX) /\
  (s < r -> s < MAX -> s < Qmax MIN (Qmin MAX r)) /\
  (r <= s -> MIN <= Qmax MIN (Qmin MAX r) <= s) /\
  (r < s -> MIN < s -> Qmax MIN (Qmin MAX r) < s).
Proof.
  intros Hlo Hhi.
  destruct (Q.min_spec MAX r) as [[H1 E1]|[H1 E1]];
    destruct (Q.max_spec MIN (Qmin MAX r)) as [[H2 E2]|[H2 E2]];
    set (a := Qmin MAX r) in *; set (b := Qmax MIN a) in *; clearbody b; clearbody a;
    unfold MIN, MAX in *; repeat split; intros; lra.
Qed.

Lemma clamp_below_range (r : Q) : r < MIN -> Qmax MIN (Qmin MAX r) == MIN.
Proof.
  intros H. apply Q.max_l. apply (Qle_trans _ r); [apply Q.le_min_r | lra].
Qed.

(** The scale [zoomFit] and [applyScale] choose for an n x m box in a
    W x H frame: 1 exactly when the box fits, less than 1 otherwise. *)
Lemma fit_scale_cases (W H n m : Q) :
  0 < n -> 0 < m ->
  JS.min3 (W / n) (H / m) 1 <= 1 /\
  (n <= W -> m <= H -> JS.min3 (W / n) (H / m) 1 == 1) /\
  (W < n \/ H < m -> JS.min3 (W / n) (H / m) 1 < 1) /\
  (0 <= W -> 0 <= H -> 0 <= JS.min3 (W / n) (H / m) 1) /\
  (0 < W -> 0 < H -> 0 < JS.min3 (W / n) (H / m) 1).
Proof.
  intros Hn Hm. unfold JS.min3.
  split; [apply Q.le_min_r|]. split; [|split; [|split]].
  - intros Hw Hh. apply Qle_antisym; [apply Q.le_min_r|].
    repeat apply Q.min_glb; try lra; apply Qle_shift_div_l; lra.
  - intros [Hw|Hh].
    + apply (Qle_lt_trans _ (W / n));
        [apply (Qle_trans _ (Qmin (W / n) (H / m))); apply Q.le_min_l|].
      apply Qlt_shift_div_r; lra.
    + apply (Qle_lt_trans _ (H / m));
        [apply (Qle_trans _ (Qmin (W / n) (H / m)));
         [apply Q.le_min_l | apply Q.le_min_r]|].
      apply Qlt_shift_div_r; lra.
  - intros Hw Hh. repeat apply Q.min_glb; try lra; apply Qle_shift_div_l; lra.
  - intros Hw Hh. repeat apply Q.min_glb_lt; try lra; apply Qlt_shift_div_l; lra.
Qed.

Lemma ofN_inject (n : N) : ofN n = inject_Z (Z.of_N n).
Proof. reflexivity. Qed.

(** X6: [zoomFit] scales down exactly when it has to.  An image with
    positive natural size that is no wider and no higher than the
    viewport is shown at scale 1 and centred, with the non-negative
    margins (clientWidth - naturalWidth) / 2 and
    (clientHeight - naturalHeight) / 2; an image that is wider or higher
    than the viewport gets a scale below 1.  In a viewport with
    non-negative client size the scale is not negative. *)
Theorem fit_downscales_only_when_needed (vp : Viewport) (img : Img) (zoom : State) :
  (0 < naturalWidth img)%N -> (0 < naturalHeight img)%N ->
  ((Z.of_N (naturalWidth img) <= clientWidth vp)%Z ->
   (Z.of_N (naturalHeight img) <= clientHeight vp)%Z ->
   scale (zoomFit vp img zoom) == 1 /\
   tx (zoomFit vp img zoom)
     == (inject_Z (clientWidth vp) - ofN (naturalWidth img)) / 2 /\
   ty (zoomFit vp img zoom)
     == (inject_Z (clientHeight vp) - ofN (naturalHeight img)) / 2 /\
   0 <= tx (zoomFit vp img zoom) /\ 0 <= ty (zoomFit vp img zoom)) /\
  ((clientWidth vp < Z.of_N (naturalWidth img))%Z \/
   (clientHeight vp < Z.of_N (naturalHeight img))%Z ->
   scale (zoomFit vp img zoom) < 1) /\
  ((0 <= clientWidth vp)%Z -> (0 <= clientHeight vp)%Z ->
   0 <= scale (zoomFit vp img zoom)).
Proof.
  intros Hw Hh. unfold zoomFit.
  destruct (N.eqb_spec (naturalWidth img) 0) as [E|_]; [lia|].
  cbn [fitScale scale tx ty]. rewrite !ofN_inject.
  assert (Hn : 0 < inject_Z (Z.of_N (naturalWidth img)))
    by (change 0 with (inject_Z 0); rewrite <- Zlt_Qlt; lia).
  assert (Hm : 0 < inject_Z (Z.of_N (naturalHeight img)))
    by (change 0 with (inject_Z 0); rewrite <- Zlt_Qlt; lia).
  destruct (fit_scale_cases (inject_Z (clientWidth vp)) (inject_Z (clientHeight vp))
              _ _ Hn Hm) as (_ & Hone & Hless & Hnonneg & _).
  split; [|split].
  - intros Hfw Hfh. rewrite Zle_Qle in Hfw, Hfh.
    specialize (Hone Hfw Hfh).
    set (fit := JS.min3 _ _ 1) in *. clearbody fit.
    set (W := inject_Z (clientWidth vp)) in *.
    set (H := inject_Z (clientHeight vp)) in *.
    set (n := inject_Z (Z.of_N (naturalWidth img))) in *.
    set (m := inject_Z (Z.of_N (naturalHeight img))) in *.
    clearbody W H n m. rewrite Hone.
    split; [reflexivity|]. split; [field|]. split; [field|].
    split; apply Qle_shift_div_l; lra.
  - intros [Hlt|Hlt]; rewrite Zlt_Qlt in Hlt; apply Hless; [now left | now right].
  - intros Hcw Hch. rewrite Zle_Qle in Hcw, Hch. now apply Hnonneg.
Qed.

(** A 400 x 300 image in an 800 x 600 viewport is shown at scale 1 with
    margins 200 and 150; a 1000 x 1000 image is scaled down. *)
Lemma fit_downscales_only_when_needed_scenario :
  (scale (zoomFit {| clientWidth := 800; clientHeight := 600 |}
            {| naturalWidth := 400; naturalHeight := 300 |} initial) == 1 /\
   tx (zoomFit {| clientWidth := 800; clientHeight := 600 |}
         {| naturalWidth := 400; naturalHeight := 300 |} initial) == 200 /\
   ty (zoomFit {| clientWidth := 800; clientHeight := 600 |}
         {| naturalWidth := 400; naturalHeight := 300 |} initial) == 150) /\
  scale (zoomFit {| clientWidth := 800; clientHeight := 600 |}
           {| naturalWidth := 1000; naturalHeight := 1000 |} initial) < 1.
Proof.
  destruct (fit_downscales_only_when_needed
              {| clientWidth := 800; clientHeight := 600 |}
              {| naturalWidth := 400; naturalHeight := 300 |} initial)
    as (Hfits & _ & _); try reflexivity.
  destruct Hfits as (Hs & Hx & Hy & _); try (cbn; lia).
  destruct (fit_downscales_only_when_needed
              {| clientWidth := 800; clientHeight := 600 |}
              {| naturalWidth := 1000; naturalHeight := 1000 |} initial)
    as (_ & Hless & _); try reflexivity.
  split; [|apply Hless; left; cbn; lia].
  split; [exact Hs|]. split; [rewrite Hx | rewrite Hy]; reflexivity.
Defined.

(** X7: For an image that has loaded, [zoomFit] does not depend on the
    transform it replaces: whatever was zoomed and panned before, a
    double click or the fit button gives the same view, and fitting
    twice is fitting once. *)
Theorem fit_restores_view (vp : Viewport) (img : Img) (zoom zoom' : State) :
  (0 < naturalWidth img)%N ->
  zoomFit vp img zoom = zoomFit vp img zoom' /\
  zoomFit vp img (zoomFit vp img zoom) = zoomFit vp img zoom.
Proof.
  intros Hw. unfold zoomFit.
  destruct (N.eqb_spec (naturalWidth img) 0) as [E|_]; [lia | now split].
Qed.

(** After zooming to 3x and panning, the fit of a 400 x 300 image in
    an 800 x 600 viewport is the fit from the initial transform. *)
Lemma fit_restores_view_scenario :
  zoomFit {| clientWidth := 800; clientHeight := 600 |}
    {| naturalWidth := 400; naturalHeight := 300 |}
    {| scale := 3; tx := -40; ty := 25; fitScale := 1 |}
  = zoomFit {| clientWidth := 800; clientHeight := 600 |}
      {| naturalWidth := 400; naturalHeight := 300 |} initial.
Proof.
  destruct (fit_restores_view {| clientWidth := 800; clientHeight := 600 |}
              {| naturalWidth := 400; naturalHeight := 300 |}
              {| scale := 3; tx := -40; ty := 25; fitScale := 1 |} initial)
    as [H _]; [reflexivity | exact H].
Defined.

Lemma zoomBy_scale (vp : Viewport) (factor : Q) (zoom : State) :
  scale (zoomBy vp factor zoom) = Qmax MIN (Qmin MAX (scale zoom * factor)) /\
  fitScale (zoomBy vp factor zoom) = fitScale zoom.
Proof. now split. Qed.

(** X9: The zoom buttons move the scale their way.  From a scale within
    [0.05, 10], [zoomBy(1.25)] never lowers the scale and raises it
    unless it is 10 already; [zoomBy(0.8)] never raises it and lowers it
    unless it is 0.05 already; neither changes fitScale.  From a scale
    below 0.05 -- the fit of a very large image -- [zoomBy(0.8)] raises
    the scale to 0.05. *)
Theorem zoom_buttons_move_scale_their_way (vp : Viewport) (zoom : State) :
  ((5 # 100) <= scale zoom -> scale zoom <= 10 ->
   (scale zoom <= scale (zoomBy vp (125 # 100) zoom) <= 10 /\
    (scale zoom < 10 -> scale zoom < scale (zoomBy vp (125 # 100) zoom))) /\
   ((5 # 100) <= scale (zoomBy vp (8 # 10) zoom) <= scale zoom /\
    ((5 # 100) < scale zoom -> scale (zoomBy vp (8 # 10) zoom) < scale zoom))) /\
  (scale zoom < (5 # 100) -> scale (zoomBy vp (8 # 10) zoom) == 5 # 100) /\
  fitScale (zoomBy vp (125 # 100) zoom) = fitScale zoom /\
  fitScale (zoomBy vp (8 # 10) zoom) = fitScale zoom.
Proof.
  destruct (zoomBy_scale vp (125 # 100) zoom) as [-> ->].
  destruct (zoomBy_scale vp (8 # 10) zoom) as [-> ->].
  split; [|split; [|now split]].
  - intros Hlo Hhi.
    destruct (clamp_direction (scale zoom) (scale zoom * (125 # 100)) Hlo Hhi)
      as (Hup & Hup' & _ & _).
    destruct (clamp_direction (scale zoom) (scale zoom * (8 # 10)) Hlo Hhi)
      as (_ & _ & Hdown & Hdown').
    unfold MIN, MAX in *. split; split.
    + apply Hup. lra.
    + intros Hlt. apply Hup'; lra.
    + apply Hdown. lra.
    + intros Hlt. apply Hdown'; lra.
  - intros Hbelow. apply clamp_below_range. unfold MIN. lra.
Qed.

(** From scale 2 the buttons give 2.5 and 1.6; from the fitted scale
    0.04 the zoom-out button gives 0.05. *)
Lemma zoom_buttons_move_scale_their_way_scenario :
  (2 < scale (zoomBy {| clientWidth := 800; clientHeight := 600 |} (125 # 100)
                {| scale := 2; tx := 100; ty := 50; fitScale := 1 |}) /\
   scale (zoomBy {| clientWidth := 800; clientHeight := 600 |} (8 # 10)
            {| scale := 2; tx := 100; ty := 50; fitScale := 1 |}) < 2) /\
  scale (zoomBy {| clientWidth := 800; clientHeight := 600 |} (8 # 10)
           {| scale := 4 # 100; tx := 0; ty := 0; fitScale := 4 # 100 |}) == 5 # 100.
Proof.
  destruct (zoom_buttons_move_scale_their_way
              {| clientWidth := 800; clientHeight := 600 |}
              {| scale := 2; tx := 100; ty := 50; fitScale := 1 |})
    as (Hrange & _).
  destruct Hrange as ((_ & Hin) & (_ & Hout)); try (vm_compute; congruence).
  destruct (zoom_buttons_move_scale_their_way
              {| clientWidth := 800; clientHeight := 600 |}
              {| scale := 4 # 100; tx := 0; ty := 0; fitScale := 4 # 100 |})
    as (_ & Hbelow & _).
  split; [split; [apply Hin | apply Hout]; reflexivity|].
  apply Hbelow. reflexivity.
Defined.

(** X10: Only a press of the left button starts a drag, and releasing the
    button ends it: after [mouseup], and after a press of another button
    while nothing is dragged, pointer moves change nothing. *)
Theorem moves_outside_a_drag_do_nothing
  (down : MouseEvent) (moves : list MouseEvent) (st : Interaction) :
  fold_left (fun acc e => onMouseMove e acc) moves (onMouseUp st) = onMouseUp st /\
  zoom (onMouseUp st) = zoom st /\
  (button down <> 0%Z -> drag st = None -> dragBy down moves st = st).
Proof.
  assert (Hidle : forall s, drag s = None ->
            fold_left (fun acc e => onMouseMove e acc) moves s = s).
  { induction moves as [|e moves IH]; intros s Hs; [reflexivity|].
    cbn [fold_left]. rewrite (move_without_drag e s Hs). now apply IH. }
  split; [now apply Hidle|]. split; [reflexivity|].
  intros Hb Hd. unfold dragBy, onMouseDown.
  destruct (Z.eqb_spec (button down) 0) as [E|_]; [contradiction|].
  cbn [negb]. now apply Hidle.
Qed.

(** A press of the right button followed by a move. *)
Lemma moves_outside_a_drag_do_nothing_scenario :
  dragBy {| button := 2; clientX := 100; clientY := 100; deltaY := 0 |}
    [{| button := 2; clientX := 130; clientY := 90; deltaY := 0 |}]
    {| zoom := initial; drag := None |}
  = {| zoom := initial; drag := None |}.
Proof.
  destruct (moves_outside_a_drag_do_nothing
              {| button := 2; clientX := 100; clientY := 100; deltaY := 0 |}
              [{| button := 2; clientX := 130; clientY := 90; deltaY := 0 |}]
              {| zoom := initial; drag := None |}) as (_ & _ & H).
  apply H; [discriminate | reflexivity].
Defined.

(** X11: One notch of the wheel moves the scale its way.  From a scale
    within [0.05, 10], a notch with deltaY < 0 never lowers the scale
    and raises it unless it is 10 already; any other notch never raises
    it and lowers it unless it is 0.05 already.  The wheel changes
    neither fitScale nor a drag in progress. *)
Theorem wheel_moves_scale_its_way (left top : Q) (e : MouseEvent) (st : Interaction) :
  (5 # 100) <= scale (zoom st) -> scale (zoom st) <= 10 ->
  (deltaY e < 0 ->
   scale (zoom st) <= scale (zoom (onWheel left top e st)) <= 10 /\
   (scale (zoom st) < 10 -> scale (zoom st) < scale (zoom (onWheel left top e st)))) /\
  (0 <= deltaY e ->
   (5 # 100) <= scale (zoom (onWheel left top e st)) <= scale (zoom st) /\
   ((5 # 100) < scale (zoom st) ->
    scale (zoom (onWheel left top e st)) < scale (zoom st))) /\
  fitScale (zoom (onWheel left top e st)) = fitScale (zoom st) /\
  drag (onWheel left top e st) = drag st.
Proof.
  intros Hlo Hhi. unfold onWheel. cbn [zoom drag zoomAtPoint scale fitScale].
  split; [|split; [|now split]].
  - intros Hup. destruct (Qlt_le_dec (deltaY e) 0) as [_|Hge]; [|lra].
    destruct (clamp_direction (scale (zoom st)) (scale (zoom st) * (112 # 100)) Hlo Hhi)
      as (H1 & H2 & _ & _).
    unfold MIN, MAX in *. split; [apply H1; lra|]. intros Hlt. apply H2; lra.
  - intros Hdown. destruct (Qlt_le_dec (deltaY e) 0) as [Hlt|_]; [lra|].
    change (1 / (112 # 100)) with (1 * (100 # 112)).
    destruct (clamp_direction (scale (zoom st))
                (scale (zoom st) * (1 * (100 # 112))) Hlo Hhi)
      as (_ & _ & H1 & H2).
    unfold MIN, MAX in *. split; [apply H1; lra|]. intros Hlt. apply H2; lra.
Qed.

(** A notch up and a notch down from scale 2. *)
Lemma wheel_moves_scale_its_way_scenario :
  2 < scale (zoom (onWheel 10 20
                     {| button := 0; clientX := 310; clientY := 220; deltaY := -100 |}
                     {| zoom := {| scale := 2; tx := 100; ty := 50; fitScale := 1 |};
                        drag := None |})) /\
  scale (zoom (onWheel 10 20
                 {| button := 0; clientX := 310; clientY := 220; deltaY := 100 |}
                 {| zoom := {| scale := 2; tx := 100; ty := 50; fitScale := 1 |};
                    drag := None |})) < 2.
Proof.
  destruct (wheel_moves_scale_its_way 10 20
              {| button := 0; clientX := 310; clientY := 220; deltaY := -100 |}
              {| zoom := {| scale := 2; tx := 100; ty := 50; fitScale := 1 |};
                 drag := None |}) as ((_ & Hup) & _); try (vm_compute; congruence).
  destruct (wheel_moves_scale_its_way 10 20
              {| button := 0; clientX := 310; clientY := 220; deltaY := 100 |}
              {| zoom := {| scale := 2; tx := 100; ty := 50; fitScale := 1 |};
                 drag := None |}) as (_ & (_ & Hdown) & _);
    try (vm_compute; congruence).
  split; [apply Hup | apply Hdown]; reflexivity.
Defined.

End ZoomComposition.

(** ** More on handleCapture *)

Section CaptureProtocol.

Import JS Capture Protocol.

Lemma throw_Progress (tid : nat) (t : Task) (err : Failure) (s : App) :
  tasks s !! tid = Some t -> Move t Returned [] -> Progress s (throw tid err s).
Proof.
  intros Ht Hm. apply (Moved s _ tid t Returned [] Ht Hm).
  - reflexivity.
  - cbn. now rewrite app_nil_r.
  - intros _. now split.
Qed.

(** Each event is one of the three kinds of progress. *)
Lemma step_Progress (s : App) (e : Event) : Progress s (step s e).
Proof.
  destruct e as [index| |  |tid r|tid r|tid| ]; cbn [step].
  - unfold openModal. destruct (hasIframe s index); now apply Idle.
  - now apply Idle.
  - unfold handleCapture. destruct (activeModalIndex s <? 0) eqn:Hneg;
      [now apply Idle|]. cbn [orb]. destruct (noTab s); [now apply Idle|].
    apply (Begun s _ (currentTabId s) (activeModalIndex s)); try reflexivity. lia.
  - destruct (tasks s !! tid) as [[index| | | | ]|] eqn:Ht; try now apply Idle.
    unfold afterScript. destruct r as [[rect|]|msg];
      try (apply (throw_Progress tid _ _ s Ht); constructor).
    destruct (_ || _); [apply (throw_Progress tid _ _ s Ht); constructor|].
    apply (Moved s _ tid _ (AwaitCaptureTab rect)
             [SendCaptureTab (currentTabId s) (currentWindowId s)] Ht);
      try reflexivity; [constructor | discriminate].
  - destruct (tasks s !! tid) as [[ |rect| | | ]|] eqn:Ht; try now apply Idle.
    unfold afterCaptureTab. destruct r as [result|msg];
      [|apply (throw_Progress tid _ _ s Ht); constructor].
    destruct (truthy _); [apply (throw_Progress tid _ _ s Ht); constructor|].
    destruct (result ≫= dataUrl) as [d|];
      [|apply (throw_Progress tid _ _ s Ht); constructor].
    apply (Moved s _ tid _ (AwaitCrop d rect) [CropImage] Ht);
      try reflexivity; [constructor | discriminate].
  - destruct (tasks s !! tid) as [[ | |d rect| | ]|] eqn:Ht; try now apply Idle.
    unfold afterCrop. destruct (Cropper.cropImage d rect) as [err|url];
      [apply (throw_Progress tid _ _ s Ht); constructor|].
    apply (Moved s _ tid _ (AwaitImgLoad url) [] Ht);
      try reflexivity; [constructor | | discriminate].
    cbn. now rewrite app_nil_r.
  - unfold imgLoad. destruct (src (img s)) as [[im|]|]; try now apply Idle.
    destruct (pending (img s)); [|now apply Idle].
    destruct (onload (img s)) as [tid|]; [|now apply Idle].
    destruct (tasks s !! tid) as [[ | | |url| ]|] eqn:Ht; try now apply Idle.
    apply (Moved s _ tid _ Returned [] Ht); try reflexivity; [constructor | |].
    + cbn. now rewrite app_nil_r.
    + intros _. now split.
Qed.

Lemma filter_by_self (tid : nat) (cs : list Call) :
  map snd (List.filter (fun c : nat * Call => Nat.eqb (fst c) tid) (map (pair tid) cs))
  = cs.
Proof.
  induction cs as [|c cs IH]; [reflexivity|].
  cbn. rewrite Nat.eqb_refl. cbn. now rewrite IH.
Qed.

Lemma callsOf_self (tid : nat) (s s' : App) (cs : list Call) :
  calls s' = calls s ++ map (pair tid) cs ->
  callsOf tid s' = callsOf tid s ++ cs.
Proof. intros H. now rewrite (callsOf_app tid s s' _ H), filter_by_self. Qed.

(** What [expected] says for each place an invocation can wait at. *)
Lemma expected_script (index : Z) (cs : list Call) :
  expected (AwaitScript index) cs -> exists tab, cs = [ExecuteScript tab index].
Proof.
  destruct cs as [|[tab i| | ] [|c cs]]; cbn; try contradiction.
  intros ->. now exists tab.
Qed.

Lemma expected_capture (rect : Rect.ViewportRect) (cs : list Call) :
  expected (AwaitCaptureTab rect) cs ->
  exists tab i tab' win, cs = [ExecuteScript tab i; SendCaptureTab tab' win].
Proof.
  destruct cs as [|[tab i| | ] [|[ |tab' win| ] [|c cs]]]; cbn; try contradiction.
  intros _. now exists tab, i, tab', win.
Qed.

Lemma expected_crop (t : Task) (cs : list Call) :
  (exists d rect, t = AwaitCrop d rect) \/ (exists url, t = AwaitImgLoad url) ->
  expected t cs ->
  exists tab i tab' win, cs = [ExecuteScript tab i; SendCaptureTab tab' win; CropImage].
Proof.
  intros [(d & rect & ->)|(url & ->)];
    (destruct cs as [|[tab i| | ] [|[ |tab' win| ] [|[ | | ] [|c cs]]]];
     cbn; try contradiction; intros _; now exists tab, i, tab', win).
Qed.

Lemma expected_move (t t' : Task) (cs added : list Call) :
  Move t t' added -> expected t cs -> expected t' (cs ++ added).
Proof.
  intros Hm Hexp. destruct Hm.
  - apply expected_script in Hexp as [tab ->]. exact I.
  - apply expected_script in Hexp as [tab ->]. exact I.
  - apply expected_capture in Hexp as (tab & i & tab' & win & ->). exact I.
  - apply expected_capture in Hexp as (tab & i & tab' & win & ->). exact I.
  - apply expected_crop in Hexp as (tab & i & tab' & win & ->); [exact I | eauto].
  - apply expected_crop in Hexp as (tab & i & tab' & win & ->); [exact I | eauto].
  - apply expected_crop in Hexp as (tab & i & tab' & win & ->); [exact I | eauto].
Qed.

Lemma protocol_step (s s' : App) :
  Progress s s' -> protocol_kept s -> protocol_kept s'.
Proof.
  intros [Ht Hc|tab index _ _ Ht Hc|tid' t t' cs Hl Hm Ht Hc _] Hkept tid;
    specialize (Hkept tid).
  - now rewrite Ht, (callsOf_same tid s s' Hc).
  - rewrite Ht. destruct (lt_eq_lt_dec tid (length (tasks s))) as [[Hlt| ->]|Hgt].
    + rewrite lookup_app_l by exact Hlt.
      rewrite (callsOf_other tid (length (tasks s)) s s' [ExecuteScript tab index]);
        [exact Hkept | lia | exact Hc].
    + rewrite lookup_app_r, Nat.sub_diag by lia. cbn [lookup list_lookup].
      rewrite lookup_ge_None_2 in Hkept by lia.
      rewrite (callsOf_self _ s s' [ExecuteScript tab index] Hc), Hkept.
      reflexivity.
    + rewrite lookup_ge_None_2 by (rewrite length_app; cbn; lia).
      rewrite lookup_ge_None_2 in Hkept by lia.
      rewrite (callsOf_other tid (length (tasks s)) s s' [ExecuteScript tab index]);
        [exact Hkept | lia | exact Hc].
  - rewrite Ht. destruct (decide (tid' = tid)) as [->|Hne].
    + rewrite list_lookup_insert_eq by (now apply lookup_lt_Some in Hl).
      rewrite Hl in Hkept. rewrite (callsOf_self tid s s' cs Hc).
      now apply (expected_move t).
    + rewrite list_lookup_insert_ne by exact Hne.
      now rewrite (callsOf_other tid tid' s s' cs Hne Hc).
Qed.

Lemma protocol_run (events : list Event) (s : App) :
  protocol_kept s -> protocol_kept (run s events).
Proof.
  revert s. induction events as [|e events IH]; intros s H; [exact H|].
  cbn [run fold_left]. apply IH, (protocol_step s), H. apply step_Progress.
Qed.

(** X12: In every run of the popup, an invocation calls its collaborators in
    the order of the pipeline and each at most once: first the page
    script, then the capture of the tab, then the crop.  Its calls are
    always a non-empty initial part of that sequence, and while it waits
    for the page script or for the capture it has called nothing later. *)
Theorem invocation_calls_in_order
  (s0 : App) (events : list Event) (tid : nat) (t : Task) :
  tasks s0 = [] -> calls s0 = [] ->
  tasks (run s0 events) !! tid = Some t ->
  ((exists tab i, callsOf tid (run s0 events) = [ExecuteScript tab i]) \/
   (exists tab i tab' win,
      callsOf tid (run s0 events) = [ExecuteScript tab i; SendCaptureTab tab' win]) \/
   (exists tab i tab' win,
      callsOf tid (run s0 events)
        = [ExecuteScript tab i; SendCaptureTab tab' win; CropImage])) /\
  (forall index, t = AwaitScript index ->
     exists tab, callsOf tid (run s0 events) = [ExecuteScript tab index]) /\
  (forall rect, t = AwaitCaptureTab rect ->
     exists tab i tab' win,
       callsOf tid (run s0 events) = [ExecuteScript tab i; SendCaptureTab tab' win]).
Proof.
  intros Ht0 Hc0 Ht.
  assert (Hkept : protocol_kept (run s0 events)).
  { apply protocol_run. intros tid'. rewrite Ht0. cbn. unfold callsOf. now rewrite Hc0. }
  specialize (Hkept tid). rewrite Ht in Hkept.
  split; [|split].
  - destruct t as [index|rect|d rect|url| ].
    + left. apply expected_script in Hkept as [tab ->]. eauto.
    + right; left. now apply expected_capture in Hkept.
    + right; right. apply (expected_crop _ _ (or_introl (ex_intro _ d (ex_intro _ rect eq_refl)))) in Hkept.
      exact Hkept.
    + right; right. apply (expected_crop _ _ (or_intror (ex_intro _ url eq_refl))) in Hkept.
      exact Hkept.
    + destruct (callsOf tid (run s0 events))
        as [|[tab i| | ] [|[ |tab' win| ] [|[ | | ] [|c cs]]]];
        cbn in Hkept; try contradiction; eauto 10.
  - intros index ->. now apply expected_script in Hkept.
  - intros rect ->. now apply expected_capture in Hkept.
Qed.

(** After [Scenario.captureA] invocation 0 waits for the capture of the
    tab: it has run the page script and asked for the capture. *)
Lemma invocation_calls_in_order_scenario :
  exists tab i tab' win,
    callsOf 0 (run Scenario.popup Scenario.captureA)
    = [ExecuteScript tab i; SendCaptureTab tab' win].
Proof.
  destruct (invocation_calls_in_order Scenario.popup Scenario.captureA 0
              (AwaitCaptureTab Scenario.rectA))
    as (_ & _ & H); try reflexivity.
  exact (H Scenario.rectA eq_refl).
Defined.

(** X13: Whenever an invocation returns -- after a failure at any stage or
    after the image has loaded -- the step that ends it leaves the
    loading indicator hidden and the capture button enabled, so that a
    capture can be started again. *)
Theorem returning_restores_button (s : App) (e : Event) (tid : nat) (t : Task) :
  tasks s !! tid = Some t -> t <> Returned ->
  tasks (step s e) !! tid = Some Returned ->
  btnDisabled (panel (step s e)) = false /\
  snapLoadingHidden (panel (step s e)) = true.
Proof.
  intros Ht Hne Hret.
  destruct (step_Progress s e) as [Ht' _|tab index _ _ Ht' _|tid' u u' cs Hl _ Ht' _ Hset].
  - rewrite Ht', Ht in Hret. congruence.
  - rewrite Ht', lookup_app_l, Ht in Hret by (now apply lookup_lt_Some in Ht).
    congruence.
  - rewrite Ht' in Hret. destruct (decide (tid' = tid)) as [->|Hd].
    + rewrite list_lookup_insert_eq in Hret by (now apply lookup_lt_Some in Hl).
      injection Hret as ->. now apply Hset.
    + rewrite list_lookup_insert_ne, Ht in Hret by exact Hd. congruence.
Qed.

(** The page finds no iframe for invocation 0 of [Scenario.popup]. *)
Lemma returning_restores_button_scenario :
  btnDisabled (panel (step (run Scenario.popup [OpenModal 0; HandleCapture])
                        (ScriptSettled 0 (Fulfilled None)))) = false /\
  snapLoadingHidden (panel (step (run Scenario.popup [OpenModal 0; HandleCapture])
                              (ScriptSettled 0 (Fulfilled None)))) = true.
Proof.
  apply (returning_restores_button (run Scenario.popup [OpenModal 0; HandleCapture])
           (ScriptSettled 0 (Fulfilled None)) 0 (AwaitScript 0)).
  - reflexivity.
  - discriminate.
  - reflexivity.
Defined.

(** The steps of an invocation, one lemma per promise it awaits. *)
Lemma script_settled_step (s : App) (tid : nat) (index : Z) (rect : Rect.ViewportRect) :
  tasks s !! tid = Some (AwaitScript index) ->
  (0 < Rect.width rect)%Q -> (0 < Rect.height rect)%Q ->
  step s (ScriptSettled tid (Fulfilled (Some rect)))
  = call tid (SendCaptureTab (currentTabId s) (currentWindowId s))
      (suspend tid (AwaitCaptureTab rect) s).
Proof.
  intros Ht Hw Hh. cbn [step]. rewrite Ht. unfold afterScript.
  replace (Qle_bool (Rect.width rect) 0) with false
    by (symmetry; apply not_true_is_false; rewrite Qle_bool_iff; lra).
  replace (Qle_bool (Rect.height rect) 0) with false
    by (symmetry; apply not_true_is_false; rewrite Qle_bool_iff; lra).
  reflexivity.
Qed.

Lemma worker_reply_step (s : App) (tid : nat) (rect : Rect.ViewportRect)
  (d : Raster.DataUrl) :
  tasks s !! tid = Some (AwaitCaptureTab rect) ->
  step s (CaptureTabSettled tid (Worker.onMessage (Fulfilled (Some d))))
  = call tid CropImage (suspend tid (AwaitCrop d rect) s).
Proof. intros Ht. cbn [step]. now rewrite Ht. Qed.

Lemma lookup_suspend (s : App) (tid : nat) (t u : Task) :
  tasks s !! tid = Some t -> tasks (suspend tid u s) !! tid = Some u.
Proof.
  intros Ht. cbn. apply list_lookup_insert_eq. now apply lookup_lt_Some in Ht.
Qed.

(** X14: When every step of an invocation succeeds -- the page reports a rect
    with positive size, the worker captures the tab, the crop gives
    [im] and the image element loads it, with no other event in between
    -- the cropped image is published: it is the snapshot to save, the
    hint shows its size, the zoom viewport and controls are shown, the
    loading indicator is hidden, the button is enabled, the transform is
    the fit of [im] and the invocation has returned, having called the
    capture and the crop once each. *)
Theorem capture_success_publishes
  (s : App) (tid : nat) (index : Z) (rect : Rect.ViewportRect)
  (shot im : Raster.Image) :
  tasks s !! tid = Some (AwaitScript index) ->
  (0 < Rect.width rect)%Q -> (0 < Rect.height rect)%Q ->
  Cropper.cropImage (Raster.Png shot) rect = inr (Raster.Png im) ->
  lastSnapshotUrl (run s (success tid rect shot)) = Some (Raster.Png im) /\
  bitmap (img (run s (success tid rect shot))) = Some im /\
  panel (run s (success tid rect shot))
    = {| snapIdleHidden := snapIdleHidden (panel s);
         snapLoadingHidden := true;
         zoomViewportHidden := false; zoomControlsHidden := false;
         btnDisabled := false; btnFull := false; btnSm := true;
         sizeHint := HintSize (Raster.width im) (Raster.height im) |} /\
  zoom (run s (success tid rect shot))
    = Zoom.zoomFit (viewport s)
        {| Zoom.naturalWidth := Raster.width im;
           Zoom.naturalHeight := Raster.height im |} (zoom s) /\
  tasks (run s (success tid rect shot)) !! tid = Some Returned /\
  callsOf tid (run s (success tid rect shot))
    = callsOf tid s
      ++ [SendCaptureTab (currentTabId s) (currentWindowId s); CropImage].
Proof.
  intros Ht Hw Hh Hcrop. unfold success. cbn [run fold_left].
  rewrite (script_settled_step s tid index rect Ht Hw Hh).
  set (s1 := call tid _ (suspend tid (AwaitCaptureTab rect) s)).
  assert (H1 : tasks s1 !! tid = Some (AwaitCaptureTab rect))
    by exact (lookup_suspend s tid _ _ Ht).
  rewrite (worker_reply_step s1 tid rect _ H1).
  set (s2 := call tid CropImage (suspend tid (AwaitCrop (Raster.Png shot) rect) s1)).
  assert (H2 : tasks s2 !! tid = Some (AwaitCrop (Raster.Png shot) rect))
    by exact (lookup_suspend s1 tid _ _ H1).
  assert (E3 : step s2 (CropSettled tid) = afterCrop tid (Raster.Png shot) rect s2)
    by (cbn [step]; now rewrite H2).
  rewrite E3. unfold afterCrop. rewrite Hcrop.
  set (s3 := suspend tid (AwaitImgLoad (Raster.Png im)) _).
  assert (H3 : tasks s3 !! tid = Some (AwaitImgLoad (Raster.Png im)))
    by exact (lookup_suspend _ tid _ _ H2).
  assert (E4 : step s3 ImgLoad
               = afterImgLoad tid
                   (set_img {| src := Some (Raster.Png im); onload := Some tid;
                               pending := false; bitmap := Some im |} s3)).
  { cbn [step]. unfold imgLoad. cbn [s3 suspend set_tasks set_img img src pending onload].
    fold s3. now rewrite H3. }
  rewrite E4. repeat split.
  - cbn. apply list_lookup_insert_eq. now apply lookup_lt_Some in H3.
  - unfold callsOf. cbn. rewrite !List.filter_app, !map_app. cbn.
    rewrite Nat.eqb_refl. cbn. now rewrite <- app_assoc.
Qed.

(** The first invocation of [Scenario.popup], started for iframe B. *)
Lemma capture_success_publishes_scenario :
  lastSnapshotUrl
    (run (run Scenario.popup [OpenModal 1; HandleCapture])
       (success 0 Scenario.rectB Scenario.shotB))
    = Some (Raster.Png Scenario.croppedB) /\
  sizeHint (panel (run (run Scenario.popup [OpenModal 1; HandleCapture])
                     (success 0 Scenario.rectB Scenario.shotB)))
    = HintSize 3 3 /\
  tasks (run (run Scenario.popup [OpenModal 1; HandleCapture])
           (success 0 Scenario.rectB Scenario.shotB)) !! 0%nat
    = Some Returned.
Proof.
  destruct (capture_success_publishes
              (run Scenario.popup [OpenModal 1; HandleCapture]) 0 1
              Scenario.rectB Scenario.shotB Scenario.croppedB)
    as (Hurl & _ & Hpanel & _ & Htask & _); try reflexivity.
  split; [exact Hurl|]. split; [now rewrite Hpanel | exact Htask].
Defined.

(** X15: A failure of [captureVisibleTab] reaches the user: the worker turns
    the rejection into [{ error }], and the invocation that waits for
    the capture then returns without calling the crop, leaving the
    published snapshot as it was.  A non-empty message is shown as it
    is; an empty one is reported as missing image data. *)
Theorem capture_failure_is_reported
  (s : App) (tid : nat) (rect : Rect.ViewportRect) (msg : string) :
  tasks s !! tid = Some (AwaitCaptureTab rect) ->
  sizeHint (panel (step s (CaptureTabSettled tid (Worker.onMessage (Rejected msg)))))
    = HintFailed (if String.eqb msg EmptyString then message NoImageData else msg) /\
  tasks (step s (CaptureTabSettled tid (Worker.onMessage (Rejected msg)))) !! tid
    = Some Returned /\
  calls (step s (CaptureTabSettled tid (Worker.onMessage (Rejected msg)))) = calls s /\
  lastSnapshotUrl (step s (CaptureTabSettled tid (Worker.onMessage (Rejected msg))))
    = lastSnapshotUrl s.
Proof.
  intros Ht. cbn [step]. rewrite Ht.
  unfold afterCaptureTab, Worker.onMessage, Worker.captureTab. cbn.
  destruct (String.eqb msg EmptyString); cbn;
    (repeat split; apply list_lookup_insert_eq; now apply lookup_lt_Some in Ht).
Qed.

(** After [Scenario.captureA] the capture of the tab fails. *)
Lemma capture_failure_is_reported_scenario :
  sizeHint (panel (step (run Scenario.popup Scenario.captureA)
                     (CaptureTabSettled 0 (Worker.onMessage (Rejected "denied")))))
    = HintFailed "denied" /\
  tasks (step (run Scenario.popup Scenario.captureA)
           (CaptureTabSettled 0 (Worker.onMessage (Rejected "denied")))) !! 0%nat
    = Some Returned /\
  calls (step (run Scenario.popup Scenario.captureA)
           (CaptureTabSettled 0 (Worker.onMessage (Rejected "denied"))))
    = calls (run Scenario.popup Scenario.captureA) /\
  lastSnapshotUrl (step (run Scenario.popup Scenario.captureA)
                     (CaptureTabSettled 0 (Worker.onMessage (Rejected "denied"))))
    = lastSnapshotUrl (run Scenario.popup Scenario.captureA).
Proof.
  apply (capture_failure_is_reported (run Scenario.popup Scenario.captureA) 0
           Scenario.rectA "denied").
  reflexivity.
Defined.

(** No step changes [iframeList]; the modal index stays, becomes -1, or
    becomes an index of the list. *)
Lemma step_modal (s : App) (e : Event) :
  iframeList (step s e) = iframeList s /\
  (activeModalIndex (step s e) = activeModalIndex s \/
   activeModalIndex (step s e) = -1 \/
   hasIframe s (activeModalIndex (step s e)) = true).
Proof.
  destruct e as [index| |  |tid r|tid r|tid| ]; cbn [step].
  - unfold openModal. destruct (hasIframe s index) eqn:E; cbn; auto.
  - cbn. auto.
  - unfold handleCapture. destruct (_ || _); cbn; auto.
  - destruct (tasks s !! tid) as [[index| | | | ]|]; auto.
    unfold afterScript. destruct r as [[rect|]|msg]; cbn; auto.
    destruct (_ || _); cbn; auto.
  - destruct (tasks s !! tid) as [[ |rect| | | ]|]; auto.
    unfold afterCaptureTab. destruct r as [result|msg]; cbn; auto.
    destruct (truthy _); cbn; auto.
    destruct (result ≫= dataUrl); cbn; auto.
  - destruct (tasks s !! tid) as [[ | |d rect| | ]|]; auto.
    unfold afterCrop. destruct (Cropper.cropImage d rect); cbn; auto.
  - unfold imgLoad. destruct (src (img s)) as [[im|]|]; auto.
    destruct (pending (img s)); auto.
    destruct (onload (img s)) as [tid|]; cbn; auto.
    destruct (tasks s !! tid) as [[ | | |url| ]|]; cbn; auto.
Qed.

Lemma hasIframe_same_list (s s' : App) (index : Z) :
  iframeList s' = iframeList s -> hasIframe s' index = hasIframe s index.
Proof. intros H. unfold hasIframe. now rewrite H. Qed.

Lemma move_calls_no_script (t t' : Task) (cs : list Call) (tab : option Z) (index : Z) :
  Move t t' cs -> ~ In (ExecuteScript tab index) cs.
Proof. intros Hm Hin. destruct Hm; cbn in Hin; intuition discriminate. Qed.

Lemma targets_step (s : App) (e : Event) :
  targets_listed s -> targets_listed (step s e).
Proof.
  intros [Hmodal Hcalls]. destruct (step_modal s e) as [Hlist Hidx].
  split.
  - rewrite (hasIframe_same_list s _ _ Hlist).
    destruct Hidx as [->|[->|H]]; auto.
  - intros tid tab index Hin. rewrite (hasIframe_same_list s _ _ Hlist).
    destruct (step_Progress s e)
      as [_ Hc|tab' index' Hi Hpos _ Hc|tid' t t' cs _ Hm _ Hc _];
      rewrite Hc in Hin.
    + now apply (Hcalls tid tab).
    + apply elem_of_app in Hin as [Hin|Hin]; [now apply (Hcalls tid tab)|].
      apply list_elem_of_singleton in Hin. injection Hin as _ _ ->.
      destruct Hmodal as [Hm|Hm]; [lia | now rewrite Hi].
    + apply elem_of_app in Hin as [Hin|Hin]; [now apply (Hcalls tid tab)|].
      apply list_elem_of_In, in_map_iff in Hin as (c & [= _ ->] & Hin).
      now destruct (move_calls_no_script t t' cs tab index Hm).
Qed.

Lemma targets_run (events : list Event) (s : App) :
  targets_listed s ->
  targets_listed (run s events) /\ iframeList (run s events) = iframeList s.
Proof.
  revert s. induction events as [|e events IH]; intros s Hs; [now split|].
  cbn [run fold_left]. destruct (IH (step s e) (targets_step s e Hs)) as [H1 H2].
  split; [exact H1|]. unfold run in H2. rewrite H2. apply step_modal.
Qed.

(** X16: As long as the list of iframes is the one the modal was opened on,
    the page script is only ever started for an entry of that list: in
    every run from a popup without an open modal, each [executeScript]
    of [handleCapture] carries an index within [iframeList]. *)
Theorem script_targets_are_listed
  (s0 : App) (events : list Event) (tid : nat) (tab : option Z) (index : Z) :
  activeModalIndex s0 = -1 -> calls s0 = [] ->
  (tid, ExecuteScript tab index) ∈ calls (run s0 events) ->
  0 <= index < Z.of_nat (length (iframeList s0)).
Proof.
  intros Hm Hc Hin.
  assert (H0 : targets_listed s0).
  { split; [now left|]. intros ? ? ? Hin'. rewrite Hc in Hin'.
    now apply not_elem_of_nil in Hin'. }
  destruct (targets_run events s0 H0) as [[_ Hcalls] Hlist].
  specialize (Hcalls tid tab index Hin). unfold hasIframe in Hcalls.
  rewrite Hlist in Hcalls. apply andb_true_iff in Hcalls. lia.
Qed.

(** [Scenario.bothCropping]: the script of the second invocation was
    started for index 1 of a list of two. *)
Lemma script_targets_are_listed_scenario :
  0 <= 1 < Z.of_nat (length (iframeList Scenario.popup)).
Proof.
  apply (script_targets_are_listed Scenario.popup Scenario.bothCropping 1 (Some 7) 1).
  - reflexivity.
  - reflexivity.
  - vm_compute. do 3 apply list_elem_of_further. apply list_elem_of_here.
Defined.

End CaptureProtocol.

(** ** escHtml and truncate *)

Section Escaping.

Import Html.

Local Open Scope string_scope.

Lemma append_assoc (s t u : string) : (s ++ t) ++ u = s ++ (t ++ u).
Proof. induction s as [|a s IH]; cbn; [reflexivity | now rewrite IH]. Qed.

Lemma replaceAll_app (c : ascii) (by_ s t : string) :
  replaceAll c by_ (s ++ t) = replaceAll c by_ s ++ replaceAll c by_ t.
Proof.
  induction s as [|a s IH]; cbn; [reflexivity|].
  destruct (Ascii.eqb a c); cbn; now rewrite IH, ?append_assoc.
Qed.

Lemma replaceAll_hit (c : ascii) (by_ s : string) :
  replaceAll c by_ (String c s) = by_ ++ replaceAll c by_ s.
Proof. cbn. now rewrite Ascii.eqb_refl. Qed.

Lemma replaceAll_miss (c a : ascii) (by_ s : string) :
  a <> c -> replaceAll c by_ (String a s) = String a (replaceAll c by_ s).
Proof. intros H. cbn. now rewrite (proj2 (Ascii.eqb_neq _ _) H). Qed.

(** The four replacements work character by character. *)
Lemma escHtml_cons (a : ascii) (s : string) :
  escHtml (Some (String a s)) = escapeChar a ++ escHtml (Some s).
Proof.
  unfold escHtml, escapeChar. cbn [default from_option id].
  destruct (Ascii.eqb_spec a amp) as [->|Hamp].
  - rewrite replaceAll_hit, !replaceAll_app. reflexivity.
  - rewrite (replaceAll_miss amp a) by exact Hamp.
    destruct (Ascii.eqb_spec a lt) as [->|Hlt].
    + rewrite replaceAll_hit, !replaceAll_app. reflexivity.
    + rewrite (replaceAll_miss lt a) by exact Hlt.
      destruct (Ascii.eqb_spec a gt) as [->|Hgt].
      * rewrite replaceAll_hit, !replaceAll_app. reflexivity.
      * rewrite (replaceAll_miss gt a) by exact Hgt.
        destruct (Ascii.eqb_spec a quot) as [->|Hquot].
        -- now rewrite replaceAll_hit.
        -- now rewrite (replaceAll_miss quot a) by exact Hquot.
Qed.

Lemma escHtml_nil : escHtml (Some EmptyString) = EmptyString.
Proof. reflexivity. Qed.

Lemma occurs_app (c : ascii) (s t : string) :
  occurs c (s ++ t) = occurs c s || occurs c t.
Proof.
  induction s as [|a s IH]; cbn; [reflexivity|]. now rewrite IH, orb_assoc.
Qed.

Lemma escapeChar_clean (a : ascii) :
  occurs lt (escapeChar a) = false /\ occurs gt (escapeChar a) = false /\
  occurs quot (escapeChar a) = false.
Proof.
  unfold escapeChar.
  destruct (Ascii.eqb_spec a amp); [now repeat split|].
  destruct (Ascii.eqb_spec a lt) as [|Hlt]; [now repeat split|].
  destruct (Ascii.eqb_spec a gt) as [|Hgt]; [now repeat split|].
  destruct (Ascii.eqb_spec a quot) as [|Hquot]; [now repeat split|].
  cbn. rewrite !orb_false_r. repeat split; now apply Ascii.eqb_neq.
Qed.

(** X17: The escaped text holds no [<], no [>] and no double quote, whatever
    the input: put between tags or inside a double-quoted attribute it
    cannot open a tag or close the attribute. *)
Theorem escHtml_leaves_no_markup (s : option string) :
  occurs lt (escHtml s) = false /\ occurs gt (escHtml s) = false /\
  occurs quot (escHtml s) = false.
Proof.
  assert (H : forall t, occurs lt (escHtml (Some t)) = false /\
                        occurs gt (escHtml (Some t)) = false /\
                        occurs quot (escHtml (Some t)) = false).
  { induction t as [|a t (IH1 & IH2 & IH3)]; [now repeat split|].
    rewrite escHtml_cons, !occurs_app, IH1, IH2, IH3.
    destruct (escapeChar_clean a) as (-> & -> & ->). now repeat split. }
  destruct s as [t|]; [apply H | now repeat split].
Qed.

(** X18: Escaping loses nothing: two strings with the same escaped text are
    the same string. *)
Theorem escHtml_injective (s t : string) :
  escHtml (Some s) = escHtml (Some t) -> s = t.
Proof.
  revert t. induction s as [|a s IH]; intros [|b t].
  - reflexivity.
  - rewrite escHtml_nil, escHtml_cons. unfold escapeChar.
    repeat (destruct (Ascii.eqb _ _)); discriminate.
  - rewrite escHtml_nil, escHtml_cons. unfold escapeChar.
    repeat (destruct (Ascii.eqb _ _)); discriminate.
  - rewrite !escHtml_cons. unfold escapeChar.
    destruct (Ascii.eqb_spec a amp) as [->|Ha1];
      [|destruct (Ascii.eqb_spec a lt) as [->|Ha2];
        [|destruct (Ascii.eqb_spec a gt) as [->|Ha3];
          [|destruct (Ascii.eqb_spec a quot) as [->|Ha4]]]];
    (destruct (Ascii.eqb_spec b amp) as [->|Hb1];
      [|destruct (Ascii.eqb_spec b lt) as [->|Hb2];
        [|destruct (Ascii.eqb_spec b gt) as [->|Hb3];
          [|destruct (Ascii.eqb_spec b quot) as [->|Hb4]]]]);
    cbn; intros H; try discriminate H;
      try (injection H as H; f_equal; now apply IH);
      try (injection H as H' H; subst; try contradiction; f_equal; now apply IH).
Qed.

Lemma escHtml_injective_scenario :
  "<b>" = "<b>".
Proof.
  apply (escHtml_injective "<b>" "<b>"). reflexivity.
Defined.

End Escaping.

Section Truncation.

Import Text.

(** X19: [truncate] never returns more than max + 1 code units for a
    non-negative max: a string of at most max units comes back as it is,
    a longer one as its first max units followed by the ellipsis. *)
Theorem truncate_bounds_length (str : list CodeUnit) (max : Z) :
  0 <= max ->
  (Z.of_nat (length str) <= max -> truncate (Some str) max = str) /\
  (max < Z.of_nat (length str) ->
     truncate (Some str) max = take (Z.to_nat max) str ++ [ellipsis] /\
     Z.of_nat (length (truncate (Some str) max)) = max + 1) /\
  Z.of_nat (length (truncate (Some str) max)) <= max + 1.
Proof.
  intros Hmax. unfold truncate, slice0.
  destruct str as [|c str]; [cbn; repeat split; try lia; intros; cbn in *; lia|].
  destruct (Z.gtb_spec (Z.of_nat (length (c :: str))) max) as [Hgt|Hle];
    replace (max <? 0) with false by lia.
  - repeat split; try lia; intros;
      rewrite length_app, length_take; cbn [length] in *; lia.
  - repeat split; lia.
Qed.

(** "abcdef" cut to 4. *)
Lemma truncate_bounds_length_scenario :
  truncate (Some [97; 98; 99; 100; 101; 102]%N) 4 = [97; 98; 99; 100; 8230]%N.
Proof.
  destruct (truncate_bounds_length [97; 98; 99; 100; 101; 102]%N 4) as (_ & H & _);
    [lia|].
  destruct H as [H _]; [cbn; lia|]. exact H.
Defined.

End Truncation.

(** ** The scan *)

Section Scanning.

Import JS Scan.

Lemma filter_split_length {A : Type} (f : A -> bool) (l : list A) :
  (length (List.filter f l) + length (List.filter (fun a => negb (f a)) l)
   = length l)%nat.
Proof.
  induction l as [|a l IH]; [reflexivity|].
  cbn. destruct (f a); cbn; lia.
Qed.

(** In a list whose entries carry their position as [index], the entry
    at position k of the filtered list sits at position [index] of the
    list, k places plus the dropped entries before it. *)
Lemma kept_position (rawList : list Info) (k : nat) (e : Info) :
  (forall n iframe, rawList !! n = Some iframe -> index iframe = n) ->
  List.filter valid rawList !! k = Some e ->
  valid e = true /\ rawList !! index e = Some e /\
  (k + droppedBefore (index e) rawList = index e)%nat.
Proof.
  revert k e. induction rawList as [|x rawList IH] using rev_ind; intros k e Hidx Hk.
  - discriminate.
  - assert (Hidx' : forall n iframe, rawList !! n = Some iframe -> index iframe = n).
    { intros n iframe H. apply Hidx. now apply lookup_app_l_Some. }
    assert (Hx : index x = length rawList).
    { apply Hidx. rewrite lookup_app_r, Nat.sub_diag by lia. reflexivity. }
    rewrite List.filter_app in Hk. cbn [List.filter] in Hk.
    destruct (lt_dec k (length (List.filter valid rawList))) as [Hlt|Hge].
    + rewrite lookup_app_l in Hk by exact Hlt.
      destruct (IH k e Hidx' Hk) as (Hv & Hl & Hpos).
      split; [exact Hv|]. split; [now apply lookup_app_l_Some|].
      unfold droppedBefore in *. rewrite take_app_le; [exact Hpos|].
      apply lookup_lt_Some in Hl. lia.
    + rewrite lookup_app_r in Hk by lia.
      destruct (valid x) eqn:Hv; [|destruct (k - _)%nat; discriminate].
      destruct (k - length (List.filter valid rawList))%nat as [|k'] eqn:Ek;
        [|destruct k'; discriminate].
      injection Hk as <-. split; [exact Hv|]. rewrite Hx.
      split; [rewrite lookup_app_r, Nat.sub_diag by lia; reflexivity|].
      unfold droppedBefore. rewrite take_app_le, firstn_all by lia.
      pose proof (filter_split_length valid rawList). lia.
Qed.

Lemma collected_index (doc : Document) (n : nat) (iframe : Info) :
  collectIframes doc !! n = Some iframe -> index iframe = n.
Proof.
  unfold collectIframes. rewrite list_lookup_imap.
  destruct (iframes doc !! n); [|discriminate]. now intros [= <-].
Qed.

Lemma scanned_list (doc : Document) (s : App) :
  noTab s = false ->
  iframeList (scanned doc s) = List.filter valid (collectIframes doc).
Proof. intros H. unfold scanned, scan, handleScan. now rewrite H. Qed.

(** X20: After a scan, [iframeList] holds the iframes with a src or srcdoc in
    page order, each with its page ordinal as [index].  The entry at
    position k has ordinal k plus the number of iframes before it that
    the filter dropped; so a card, which passes its ordinal to
    [openModal], finds its own entry at [iframeList[index]] exactly when
    no iframe before it on the page was dropped. *)
Theorem scan_keeps_page_ordinals (doc : Document) (s : App) (k : nat) (e : Info) :
  noTab s = false ->
  iframeList (scanned doc s) !! k = Some e ->
  valid e = true /\
  collectIframes doc !! index e = Some e /\
  (k + droppedBefore (index e) (collectIframes doc) = index e)%nat /\
  (iframeList (scanned doc s) !! index e = Some e <->
   droppedBefore (index e) (collectIframes doc) = 0%nat).
Proof.
  intros Htab Hk. rewrite (scanned_list doc s Htab) in *.
  destruct (kept_position _ k e (collected_index doc) Hk) as (Hv & Hl & Hpos).
  repeat split; try assumption.
  - intros Hown.
    destruct (kept_position _ (index e) e (collected_index doc) Hown) as (_ & _ & H).
    lia.
  - intros H0. now replace (index e) with k by lia.
Qed.

(** [Inputs.mixedDocument]: the only entry of the list is the second
    iframe of the page; it has ordinal 1, and [iframeList[1]] is empty. *)
Lemma scan_keeps_page_ordinals_scenario :
  index Inputs.infoA = 1%nat /\
  droppedBefore 1 (collectIframes Inputs.mixedDocument) = 1%nat /\
  iframeList (scanned Inputs.mixedDocument Inputs.beforeScan) !! 1%nat = None.
Proof.
  destruct (scan_keeps_page_ordinals Inputs.mixedDocument Inputs.beforeScan 0
              Inputs.infoA) as (_ & _ & Hpos & Hown); try reflexivity.
  split; [reflexivity|]. split; [exact Hpos|].
  destruct (iframeList (scanned Inputs.mixedDocument Inputs.beforeScan) !! 1%nat)
    eqn:E; [discriminate E | reflexivity].
Defined.

Lemma showState_one_panel (name : StateName) (msg : string) (p : Panels) :
  visiblePanels (showState name msg p) = 1%nat.
Proof. now destruct name. Qed.

(** X21: Every call of [handleScan] on a tab ends with the scan button
    enabled and exactly one state panel visible.  A scan that goes
    through replaces the list by the iframes with a src or srcdoc and
    shows the result panel when it kept one, the empty panel otherwise;
    a scan that fails keeps the list and shows the empty panel with the
    error message, or a default text when the message is empty. *)
Theorem scan_outcome_is_shown (r : Settled (option (list Info))) (s : App) :
  noTab s = false ->
  btnScanDisabled (scan r s) = false /\
  visiblePanels (panels (scan r s)) = 1%nat /\
  (forall injected, r = Fulfilled injected ->
     iframeList (scan r s) = List.filter valid (default [] injected) /\
     (resultHidden (panels (scan r s)) = false <-> iframeList (scan r s) <> []) /\
     (emptyHidden (panels (scan r s)) = false <-> iframeList (scan r s) = [])) /\
  (forall msg, r = Rejected msg ->
     iframeList (scan r s) = iframeList s /\
     emptyHidden (panels (scan r s)) = false /\
     errText (panels (scan r s)) = Some (orElse msg defaultError)).
Proof.
  intros Htab. unfold scan, handleScan. rewrite Htab. cbn [fst snd].
  destruct r as [injected|msg]; cbn [afterScan iframeList panels btnScanDisabled].
  - split; [reflexivity|]. split.
    + destruct (length _ =? 0)%nat; apply showState_one_panel.
    + split; [|discriminate]. intros ? [= <-]. split; [reflexivity|].
      destruct (List.filter valid (default [] injected)) as [|e kept]; cbn;
        split; split; congruence.
  - split; [reflexivity|]. split; [apply showState_one_panel|].
    split; [discriminate|]. intros ? [= <-]. now repeat split.
Qed.

Lemma scan_outcome_is_shown_scenario :
  btnScanDisabled (scanned Inputs.mixedDocument Inputs.beforeScan) = false /\
  visiblePanels (panels (scanned Inputs.mixedDocument Inputs.beforeScan)) = 1%nat /\
  resultHidden (panels (scanned Inputs.mixedDocument Inputs.beforeScan)) = false.
Proof.
  destruct (scan_outcome_is_shown
              (Fulfilled (Some (collectIframes Inputs.mixedDocument)))
              Inputs.beforeScan) as (Hbtn & Hone & Hok & _); [reflexivity|].
  split; [exact Hbtn|]. split; [exact Hone|].
  destruct (Hok _ eq_refl) as (_ & Hres & _). apply Hres. discriminate.
Defined.

(** X22: [showState] never removes the error text: after a scan has failed,
    a later scan that goes through leaves the message of the failure in
    the empty panel, and shows it there when it finds no iframe. *)
Theorem scan_error_text_stays
  (s : App) (msg : string) (injected : option (list Info)) :
  noTab s = false ->
  errText (panels (scan (Fulfilled injected) (scan (Rejected msg) s)))
    = Some (orElse msg defaultError) /\
  (List.filter valid (default [] injected) = [] ->
   emptyHidden (panels (scan (Fulfilled injected) (scan (Rejected msg) s))) = false).
Proof.
  intros Htab. unfold scan, handleScan. rewrite Htab. cbn [fst snd afterScan].
  unfold noTab in *. cbn [currentTabId]. rewrite Htab. cbn [fst snd afterScan panels].
  split.
  - now destruct (length _ =? 0)%nat.
  - intros ->. reflexivity.
Qed.

Lemma scan_error_text_stays_scenario :
  errText (panels (scan (Fulfilled (Some []))
                     (scan (Rejected "Cannot access a chrome:// URL") Inputs.beforeScan)))
    = Some "Cannot access a chrome:// URL"%string /\
  emptyHidden (panels (scan (Fulfilled (Some []))
                         (scan (Rejected "Cannot access a chrome:// URL")
                            Inputs.beforeScan))) = false.
Proof.
  destruct (scan_error_text_stays Inputs.beforeScan "Cannot access a chrome:// URL"
              (Some [])) as [Htext Hempty]; [reflexivity|].
  split; [exact Htext | now apply Hempty].
Defined.

End Scanning.

(** ** The hover highlight *)

Section Debounce.

Import Highlight.

Lemma clear_all (s : App) :
  only_last_pending s ->
  Timers.pending (Timers.clearTimeout (highlightTimer s) (timers s)) = [].
Proof.
  intros Hinv. destruct (highlightTimer s) as [n|] eqn:En; cbn.
  - assert (H : forall c, In c (Timers.pending (timers s)) ->
                  negb (Nat.eqb (fst c) n) = false).
    { intros [id index] Hin. destruct (Hinv id index Hin) as [Hid _].
      rewrite En in Hid. injection Hid as <-. cbn. now rewrite Nat.eqb_refl. }
    induction (Timers.pending (timers s)) as [|c l IH]; [reflexivity|].
    cbn. rewrite (H c) by now left. apply IH. intros c' Hc'. apply H. now right.
  - destruct (Timers.pending (timers s)) as [|[id index] l] eqn:E; [reflexivity|].
    destruct (Hinv id index) as [Hid _]; [rewrite E; now left|].
    rewrite En in Hid. discriminate.
Qed.

Lemma next_clearTimeout {A : Type} (id : option nat) (timers : Timers.t A) :
  Timers.next (Timers.clearTimeout id timers) = Timers.next timers.
Proof. now destruct id. Qed.

(** A hover leaves exactly its own callback pending. *)
Lemma enter_pending (index : Z) (s : App) :
  only_last_pending s ->
  Timers.pending (timers (highlightPageIframe index s))
    = [(Timers.next (timers s), index)] /\
  Timers.next (timers (highlightPageIframe index s)) = S (Timers.next (timers s)) /\
  highlightTimer (highlightPageIframe index s) = Some (Timers.next (timers s)) /\
  injected (highlightPageIframe index s) = injected s /\
  currentTabId (highlightPageIframe index s) = currentTabId s.
Proof.
  intros Hinv. unfold highlightPageIframe. cbn.
  rewrite (clear_all s Hinv), next_clearTimeout. now repeat split.
Qed.

Lemma filter_keeps_members {A : Type} (f : A -> bool) (l : list A) (a : A) :
  In a (List.filter f l) -> In a l.
Proof. intros H. now apply filter_In in H. Qed.

Lemma invariant_step (s : App) (e : Event) :
  only_last_pending s -> only_last_pending (step s e).
Proof.
  intros Hinv. destruct e as [index| |n]; cbn [step].
  - destruct (enter_pending index s Hinv) as (Hp & Hn & Ht & _).
    intros id i Hin. rewrite Hp in Hin. destruct Hin as [[= <- <-]|[]].
    rewrite Ht, Hn. split; [reflexivity | lia].
  - intros id i Hin. cbn in Hin. now rewrite (clear_all s Hinv) in Hin.
  - destruct (Timers.callback n (timers s)) as [index|]; [|exact Hinv].
    unfold onHighlightTimer, noTab. cbn [currentTabId].
    assert (H : forall id i,
              In (id, i) (Timers.pending (Timers.clearTimeout (Some n) (timers s))) ->
              highlightTimer s = Some id /\ (id < Timers.next (timers s))%nat).
    { intros id i Hin. cbn in Hin. apply filter_keeps_members in Hin.
      exact (Hinv id i Hin). }
    destruct (currentTabId s) as [tabId|]; [destruct (tabId =? 0)%Z|]; exact H.
Qed.

Lemma invariant_run (events : list Event) (s : App) :
  only_last_pending s -> only_last_pending (run s events).
Proof.
  revert s. induction events as [|e events IH]; intros s H; [exact H|].
  cbn [run fold_left]. apply IH, invariant_step, H.
Qed.

Lemma invariant_initial (tabId : option Z) : only_last_pending (initial tabId).
Proof. intros id index []. Qed.

(** A burst of hovers leaves one callback pending: that of the last. *)
Lemma burst_pending (indices : list Z) (last : Z) (s : App) :
  only_last_pending s ->
  Timers.pending (timers (run s (map MouseEnter (indices ++ [last]))))
    = [((Timers.next (timers s) + length indices)%nat, last)] /\
  injected (run s (map MouseEnter (indices ++ [last]))) = injected s /\
  currentTabId (run s (map MouseEnter (indices ++ [last]))) = currentTabId s.
Proof.
  revert s. induction indices as [|i indices IH]; intros s Hinv.
  - cbn [app map run fold_left step length].
    destruct (enter_pending last s Hinv) as (Hp & _ & _ & Hi & Ht).
    rewrite Hp, Nat.add_0_r. now repeat split.
  - cbn [app map run fold_left step length].
    destruct (enter_pending i s Hinv) as (_ & Hn & _ & Hi & Ht).
    destruct (IH (highlightPageIframe i s) (invariant_step s (MouseEnter i) Hinv))
      as (Hp' & Hi' & Ht').
    unfold run in *. rewrite Hp', Hi', Ht', Hn, Hi, Ht, Nat.add_succ_r.
    now repeat split.
Qed.

Lemma run_app_events (s : App) (l1 l2 : list Event) :
  run s (l1 ++ l2) = run (run s l1) l2.
Proof. apply fold_left_app. Qed.

Lemma tab_run (events : list Event) (s : App) :
  currentTabId (run s events) = currentTabId s.
Proof.
  revert s. induction events as [|e events IH]; intros s; [reflexivity|].
  cbn [run fold_left]. unfold run in IH. rewrite IH.
  destruct e as [index| |n]; cbn [step]; try reflexivity.
  destruct (Timers.callback n (timers s)); [|reflexivity].
  unfold onHighlightTimer. now destruct (noTab _).
Qed.

(** X23: The highlight is debounced.  On a tab, after any history, when the
    pointer enters several cards before a timer fires, the timer that
    fires next injects at most one highlight: that of the last card, and
    only if it is the timer of that last hover. *)
Theorem only_last_hover_is_highlighted
  (tabId : option Z) (history : list Event) (indices : list Z) (last : Z) (id : nat) :
  noTab (initial tabId) = false ->
  injected (run (initial tabId)
              (history ++ map MouseEnter (indices ++ [last]) ++ [Fire id]))
  = injected (run (initial tabId) history)
    ++ (if Nat.eqb (Timers.next (timers (run (initial tabId) history))
                    + length indices) id
        then [Show last] else []).
Proof.
  intros Htab. rewrite !run_app_events.
  set (s := run (initial tabId) history).
  assert (Hinv : only_last_pending s) by apply invariant_run, invariant_initial.
  destruct (burst_pending indices last s Hinv) as (Hp & Hi & Ht).
  set (s' := run s (map MouseEnter (indices ++ [last]))) in *.
  assert (Htab' : noTab s' = false).
  { unfold noTab in *. rewrite Ht. unfold s. now rewrite tab_run. }
  cbn [run fold_left step]. unfold Timers.callback. rewrite Hp. cbn [List.find fst].
  destruct (Nat.eqb _ id); cbn [fmap option_fmap option_map snd].
  - unfold onHighlightTimer. unfold noTab in *. cbn [currentTabId].
    destruct (currentTabId s') as [t|]; [destruct (t =? 0)%Z|]; try discriminate.
    cbn. now rewrite Hi.
  - now rewrite app_nil_r.
Qed.

(** The pointer crosses cards 4 and 2 and rests on 5: the first timer
    that fires is the third of the popup and shows iframe 5. *)
Lemma only_last_hover_is_highlighted_scenario :
  injected (run (initial (Some 7))
              ([] ++ map MouseEnter ([4; 2] ++ [5]) ++ [Fire 3]))
  = [] ++ [Show 5].
Proof.
  apply (only_last_hover_is_highlighted (Some 7) [] [4; 2] 5 3). reflexivity.
Defined.

(** X24: When the pointer leaves, the pending highlight is cancelled: no
    timer that fires afterwards injects anything. *)
Theorem leaving_cancels_highlight
  (tabId : option Z) (history : list Event) (id : nat) :
  injected (run (initial tabId) (history ++ [MouseLeave; Fire id]))
  = injected (run (initial tabId) (history ++ [MouseLeave])).
Proof.
  rewrite !run_app_events. set (s := run (initial tabId) history).
  assert (Hinv : only_last_pending s) by apply invariant_run, invariant_initial.
  cbn [run fold_left step]. unfold Timers.callback.
  cbn [clearPageIframeHighlight timers]. now rewrite (clear_all s Hinv).
Qed.

End Debounce.

(** ** The preview *)

Section PreviewModal.

Import Preview.

Local Open Scope Q_scope.

Lemma inject_Z_pos (z : Z) : (0 < z)%Z -> 0 < inject_Z z.
Proof. intros H. change 0 with (inject_Z 0). now rewrite <- Zlt_Qlt. Qed.

(** X25: In a body of positive size [applyScale] lays the previewed
    iframe out at its original width and height, each replaced by that
    of the body when it is not positive, and scales it down only when it
    has to: the scale is positive and at most 1; a frame no wider and no
    higher than the body gets scale 1 and the non-negative offsets
    (bw - width) / 2 and (bh - height) / 2, any other frame a scale
    below 1.  An iframe of unknown size fills the body at scale 1 with
    offsets 0. *)
Theorem preview_scales_down_only_when_needed (bw bh origWidth origHeight : Z) :
  (0 < bw)%Z -> (0 < bh)%Z ->
  (frameWidth (applyScale bw bh origWidth origHeight)
     = (if (origWidth >? 0)%Z then origWidth else bw) /\
   frameHeight (applyScale bw bh origWidth origHeight)
     = (if (origHeight >? 0)%Z then origHeight else bh) /\
   (0 < frameWidth (applyScale bw bh origWidth origHeight))%Z /\
   (0 < frameHeight (applyScale bw bh origWidth origHeight))%Z) /\
  0 < scale (applyScale bw bh origWidth origHeight) <= 1 /\
  ((frameWidth (applyScale bw bh origWidth origHeight) <= bw)%Z ->
   (frameHeight (applyScale bw bh origWidth origHeight) <= bh)%Z ->
   scale (applyScale bw bh origWidth origHeight) == 1 /\
   left (applyScale bw bh origWidth origHeight)
     == (inject_Z bw
         - inject_Z (frameWidth (applyScale bw bh origWidth origHeight))) / 2 /\
   top (applyScale bw bh origWidth origHeight)
     == (inject_Z bh
         - inject_Z (frameHeight (applyScale bw bh origWidth origHeight))) / 2 /\
   0 <= left (applyScale bw bh origWidth origHeight) /\
   0 <= top (applyScale bw bh origWidth origHeight)) /\
  ((bw < frameWidth (applyScale bw bh origWidth origHeight))%Z \/
   (bh < frameHeight (applyScale bw bh origWidth origHeight))%Z ->
   scale (applyScale bw bh origWidth origHeight) < 1) /\
  ((origWidth <= 0)%Z -> (origHeight <= 0)%Z ->
   scale (applyScale bw bh origWidth origHeight) == 1 /\
   left (applyScale bw bh origWidth origHeight) == 0 /\
   top (applyScale bw bh origWidth origHeight) == 0).
Proof.
  intros Hbw Hbh. unfold applyScale. cbn [frameWidth frameHeight scale left top].
  set (iw := if (origWidth >? 0)%Z then origWidth else bw).
  set (ih := if (origHeight >? 0)%Z then origHeight else bh).
  assert (Hiw : (0 < iw)%Z) by (unfold iw; destruct (Z.gtb_spec origWidth 0); lia).
  assert (Hih : (0 < ih)%Z) by (unfold ih; destruct (Z.gtb_spec origHeight 0); lia).
  destruct (fit_scale_cases (inject_Z bw) (inject_Z bh) (inject_Z iw) (inject_Z ih)
              (inject_Z_pos iw Hiw) (inject_Z_pos ih Hih))
    as (Hle & Hone & Hless & _ & Hpos).
  specialize (Hpos (inject_Z_pos bw Hbw) (inject_Z_pos bh Hbh)).
  assert (Hfits : (iw <= bw)%Z -> (ih <= bh)%Z ->
            JS.min3 (inject_Z bw / inject_Z iw) (inject_Z bh / inject_Z ih) 1 == 1 /\
            (inject_Z bw
             - inject_Z iw
               * JS.min3 (inject_Z bw / inject_Z iw) (inject_Z bh / inject_Z ih) 1) / 2
              == (inject_Z bw - inject_Z iw) / 2 /\
            (inject_Z bh
             - inject_Z ih
               * JS.min3 (inject_Z bw / inject_Z iw) (inject_Z bh / inject_Z ih) 1) / 2
              == (inject_Z bh - inject_Z ih) / 2 /\
            0 <= (inject_Z bw - inject_Z iw) / 2 /\
            0 <= (inject_Z bh - inject_Z ih) / 2).
  { intros Hfw Hfh. rewrite Zle_Qle in Hfw, Hfh. specialize (Hone Hfw Hfh).
    set (fit := JS.min3 _ _ 1) in *. clearbody fit. rewrite Hone.
    split; [reflexivity|]. split; [field|]. split; [field|].
    split; apply Qle_shift_div_l; lra. }
  split; [now repeat split|]. split; [now split|]. split; [|split].
  - intros Hfw Hfh. destruct (Hfits Hfw Hfh) as (Hs & Hl & Ht & Hl0 & Ht0).
    split; [exact Hs|]. split; [exact Hl|]. split; [exact Ht|].
    split; [rewrite Hl | rewrite Ht]; assumption.
  - intros [Hlt|Hlt]; rewrite Zlt_Qlt in Hlt; apply Hless; [now left | now right].
  - intros Ho1 Ho2.
    assert (Ew : iw = bw) by (unfold iw; destruct (Z.gtb_spec origWidth 0); lia).
    assert (Eh : ih = bh) by (unfold ih; destruct (Z.gtb_spec origHeight 0); lia).
    destruct Hfits as (Hs & Hl & Ht & _); [lia | lia |].
    split; [exact Hs|]. rewrite Hl, Ht, Ew, Eh. split; field.
Qed.

(** A 300 x 200 iframe in a body of 600 x 600 keeps its size, 150 from
    the left and 200 from the top; a 1200 x 900 iframe is scaled down. *)
Lemma preview_scales_down_only_when_needed_scenario :
  (scale (applyScale 600 600 300 200) == 1 /\
   left (applyScale 600 600 300 200) == 150 /\
   top (applyScale 600 600 300 200) == 200) /\
  scale (applyScale 600 600 1200 900) < 1.
Proof.
  destruct (preview_scales_down_only_when_needed 600 600 300 200)
    as (_ & _ & Hfits & _); try reflexivity.
  destruct Hfits as (Hs & Hl & Ht & _); try (cbn; lia).
  destruct (preview_scales_down_only_when_needed 600 600 1200 900)
    as (_ & _ & _ & Hless & _); try reflexivity.
  split; [|apply Hless; left; cbn; lia].
  split; [exact Hs|]. split; [rewrite Hl | rewrite Ht]; reflexivity.
Defined.

Lemma timeouts_without_timers (ids : list nat) (s : App) :
  Timers.pending (timers s) = [] -> run s (map Timeout ids) = s.
Proof.
  intros H. induction ids as [|id ids IH]; [reflexivity|].
  cbn [map run fold_left step]. unfold Timers.callback. rewrite H. exact IH.
Qed.

Lemma eqb_succ (n : nat) : Nat.eqb n (S n) = false.
Proof. apply Nat.eqb_neq. lia. Qed.

(** X26: When no timer is pending and a preview is opened, a [load] -- or a
    click on the close button -- cancels the only timer: whatever timers
    fire afterwards, the preview is not marked as blocked. *)
Theorem loaded_preview_is_not_blocked (s : App) (target : string) (ids : list nat) :
  Timers.pending (timers s) = [] ->
  (blockedHidden (run s ([Open target; Load] ++ map Timeout ids)) = true /\
   loadingHidden (run s ([Open target; Load] ++ map Timeout ids)) = true) /\
  blockedHidden (run s ([Open target; Close] ++ map Timeout ids)) = true.
Proof.
  intros H. unfold run. rewrite !fold_left_app. fold (run s [Open target; Load]).
  fold (run s [Open target; Close]).
  fold (run (run s [Open target; Load]) (map Timeout ids)).
  fold (run (run s [Open target; Close]) (map Timeout ids)).
  rewrite !timeouts_without_timers; cbn; rewrite ?H; cbn;
    rewrite ?Nat.eqb_refl; now repeat split.
Qed.

Lemma loaded_preview_is_not_blocked_scenario :
  (blockedHidden (run initial ([Open "https://a.example/"; Load] ++ map Timeout [1%nat]))
     = true /\
   loadingHidden (run initial ([Open "https://a.example/"; Load] ++ map Timeout [1%nat]))
     = true) /\
  blockedHidden (run initial ([Open "https://a.example/"; Close] ++ map Timeout [1%nat]))
    = true.
Proof.
  apply (loaded_preview_is_not_blocked initial "https://a.example/" [1%nat]).
  reflexivity.
Defined.

(** X27: The reload button sets a new timer without clearing the one it
    replaces.  When no timer is pending, a preview is opened, reloaded
    before it has loaded and then loads, the first timer is still
    pending; when it fires, the preview is marked as blocked although it
    has loaded. *)
Theorem reload_keeps_first_timer (s : App) (target : string) :
  Timers.pending (timers s) = [] ->
  Timers.pending (timers (run s [Open target; Reload; Load]))
    = [(Timers.next (timers s), tt)] /\
  blockedHidden (run s [Open target; Reload; Load]) = true /\
  blockedHidden (run s [Open target; Reload; Load; Timeout (Timers.next (timers s))])
    = false.
Proof.
  intros H. cbn. rewrite H. cbn.
  rewrite !Nat.eqb_refl, eqb_succ. cbn. rewrite ?Nat.eqb_refl. now repeat split.
Qed.

Lemma reload_keeps_first_timer_scenario :
  Timers.pending (timers (run initial [Open "https://a.example/"; Reload; Load]))
    = [(1%nat, tt)] /\
  blockedHidden (run initial [Open "https://a.example/"; Reload; Load]) = true /\
  blockedHidden (run initial [Open "https://a.example/"; Reload; Load; Timeout 1])
    = false.
Proof.
  apply (reload_keeps_first_timer initial "https://a.example/"). reflexivity.
Defined.

End PreviewModal.
